(** * cli.ts: exchange rates from Coinbase and Binance, printed as CSV

    A shallow embedding of [src/cli.ts].  The file has three functions:
    [getCoinbasePriceData] (a websocket subscription that collects one
    ticker per product), [getBinancePriceData] (one HTTPS request whose
    answer is filtered and renamed) and [printExchangeRates] (waits for
    both, sorts the CSV lines and writes them).

    The code is a set of event listeners around mutable closures.  Each
    closure becomes a record of its variables, each listener a function
    from the record to the record, and the run of the program a fold of
    the listeners over the events the libraries deliver.  What the
    JavaScript runtime contributes (strings, [JSON.parse], property order
    of objects, promises, [Array.prototype.sort]) is modelled in the first
    part of the file. *)

From Stdlib Require Import String Ascii.
From Stdlib Require Import NArith ZArith Bool Lia.
From Stdlib Require Import List Permutation Sorted.
Import ListNotations.

Set Warnings "-register-all".

Local Open Scope string_scope.
Local Open Scope N_scope.
Local Open Scope list_scope.

(* ================================================================= *)
(** * The runtime *)

(** ** Strings

    A JavaScript string is a sequence of 16-bit code units; equality and
    the relational operators work on the code units.  [js] writes a
    literal. *)

Definition code_unit := N.
Definition jsstring := list code_unit.

Definition js (s : string) : jsstring :=
  map N_of_ascii (list_ascii_of_string s).

(** [a === b] on strings. *)
Fixpoint string_eqb (a b : jsstring) : bool :=
  match a, b with
  | [], [] => true
  | x :: a', y :: b' => (x =? y) && string_eqb a' b'
  | _, _ => false
  end.

(** [a < b] on strings: the first differing code unit decides, a proper
    prefix is smaller. *)
Fixpoint string_ltb (a b : jsstring) : bool :=
  match a, b with
  | _, [] => false
  | [], _ :: _ => true
  | x :: a', y :: b' =>
      if x <? y then true else if y <? x then false else string_ltb a' b'
  end.

(** ** JSON values

    What [JSON.parse] returns.  A number keeps its source text: the
    program only ever asks for its [typeof].  The properties of an object
    are kept in creation order. *)

Inductive json : Type :=
| JNull
| JBool (b : bool)
| JNumber (literal : jsstring)
| JString (s : jsstring)
| JArray (items : list json)
| JObject (props : list (jsstring * json)).

(** A property read yields a value or [undefined]. *)
Definition value := option json.
Definition undefined : value := None.

Fixpoint lookup {V : Type} (name : jsstring) (props : list (jsstring * V))
  : option V :=
  match props with
  | [] => None
  | (k, v) :: rest => if string_eqb k name then Some v else lookup name rest
  end.

(** [CreateDataProperty]: an existing key keeps its place and takes the
    new value, a new key goes to the end. *)
Fixpoint define {V : Type} (name : jsstring) (v : V)
  (props : list (jsstring * V)) : list (jsstring * V) :=
  match props with
  | [] => [(name, v)]
  | (k, w) :: rest =>
      if string_eqb k name then (k, v) :: rest
      else (k, w) :: define name v rest
  end.

(** ** JSON.parse

    The grammar of ECMA-404, which [JSON.parse] accepts exactly.  A parser
    returns the value with the rest of the text, or reports a syntax
    error.  [Exhausted] is the third outcome of the recursion on a nesting
    bound; [JSON_parse_total] below shows that it never comes out of
    [JSON_parse]. *)

Inductive parsed (A : Type) : Type :=
| Parsed (a : A) (rest : jsstring)
| Malformed
| Exhausted.
Arguments Parsed {A} a rest.
Arguments Malformed {A}.
Arguments Exhausted {A}.

Definition is_ws (c : code_unit) : bool :=
  (c =? 32) || (c =? 9) || (c =? 10) || (c =? 13).

Fixpoint skip_ws (s : jsstring) : jsstring :=
  match s with
  | c :: r => if is_ws c then skip_ws r else s
  | [] => []
  end.

Definition is_digit (c : code_unit) : bool := (48 <=? c) && (c <=? 57).

Fixpoint digits (s : jsstring) : jsstring * jsstring :=
  match s with
  | c :: r =>
      if is_digit c then (let (ds, r') := digits r in (c :: ds, r'))
      else ([], s)
  | [] => ([], [])
  end.

(** A number: an optional minus sign, then zero or a digit string without
    leading zero, then an optional fraction, then an optional exponent. *)
Definition parse_int (s : jsstring) : option (jsstring * jsstring) :=
  match s with
  | c :: r =>
      if c =? 48 then Some ([c], r)
      else if is_digit c then
        (let (ds, r') := digits r in Some (c :: ds, r'))
      else None
  | [] => None
  end.

Definition parse_frac (s : jsstring) : option (jsstring * jsstring) :=
  match s with
  | c :: r =>
      if c =? 46 then
        match digits r with
        | ([], _) => None
        | (ds, r') => Some (c :: ds, r')
        end
      else Some ([], s)
  | [] => Some ([], s)
  end.

Definition parse_sign (s : jsstring) : jsstring * jsstring :=
  match s with
  | c :: r => if (c =? 43) || (c =? 45) then ([c], r) else ([], s)
  | [] => ([], s)
  end.

Definition parse_exp (s : jsstring) : option (jsstring * jsstring) :=
  match s with
  | e :: r =>
      if (e =? 101) || (e =? 69) then
        let (sign, r1) := parse_sign r in
        match digits r1 with
        | ([], _) => None
        | (ds, r') => Some (e :: sign ++ ds, r')
        end
      else Some ([], s)
  | [] => Some ([], s)
  end.

Definition parse_minus (s : jsstring) : jsstring * jsstring :=
  match s with
  | c :: r => if c =? 45 then ([c], r) else ([], s)
  | [] => ([], s)
  end.

Definition parse_number (s : jsstring) : option (jsstring * jsstring) :=
  let (sign, s1) := parse_minus s in
  match parse_int s1 with
  | None => None
  | Some (i, s2) =>
      match parse_frac s2 with
      | None => None
      | Some (f, s3) =>
          match parse_exp s3 with
          | None => None
          | Some (e, s4) => Some (sign ++ i ++ f ++ e, s4)
          end
      end
  end.

Definition hex_digit (c : code_unit) : option N :=
  if is_digit c then Some (c - 48)
  else if (97 <=? c) && (c <=? 102) then Some (c - 87)
  else if (65 <=? c) && (c <=? 70) then Some (c - 55)
  else None.

Definition hex4 (a b c d : code_unit) : option code_unit :=
  match hex_digit a, hex_digit b, hex_digit c, hex_digit d with
  | Some x, Some y, Some z, Some w => Some (((x * 16 + y) * 16 + z) * 16 + w)
  | _, _, _, _ => None
  end.

Definition escape (e : code_unit) : option code_unit :=
  if (e =? 34) || (e =? 92) || (e =? 47) then Some e
  else if e =? 98 then Some 8
  else if e =? 102 then Some 12
  else if e =? 110 then Some 10
  else if e =? 114 then Some 13
  else if e =? 116 then Some 9
  else None.

(** The characters of a string after its opening quote, up to the closing
    one. *)
Fixpoint parse_chars (s : jsstring) (acc : jsstring)
  : option (jsstring * jsstring) :=
  match s with
  | [] => None
  | c :: r =>
      if c =? 34 then Some (rev acc, r)
      else if c =? 92 then
        match r with
        | [] => None
        | e :: r1 =>
            if e =? 117 then
              match r1 with
              | h1 :: h2 :: h3 :: h4 :: r2 =>
                  match hex4 h1 h2 h3 h4 with
                  | Some u => parse_chars r2 (u :: acc)
                  | None => None
                  end
              | _ => None
              end
            else
              match escape e with
              | Some u => parse_chars r1 (u :: acc)
              | None => None
              end
        end
      else if c <? 32 then None
      else parse_chars r (c :: acc)
  end.

Fixpoint starts_with (p s : jsstring) : option jsstring :=
  match p, s with
  | [], _ => Some s
  | x :: p', y :: s' => if x =? y then starts_with p' s' else None
  | _ :: _, [] => None
  end.

Definition keyword (w : string) (v : json) (s : jsstring)
  : parsed json :=
  match starts_with (js w) s with
  | Some r => Parsed v r
  | None => Malformed
  end.

(** [closes c s]: the text after the next token of [s] when that token
    is [c]. *)
Definition closes (c : code_unit) (s : jsstring) : option jsstring :=
  match skip_ws s with
  | c' :: r => if c' =? c then Some r else None
  | [] => None
  end.

(** The elements of an array after the first, and the members of an
    object after the first: loops over the commas, bounded by the length
    of what is left to read. *)
Section Loops.

Variable parse_value : jsstring -> parsed json.

Fixpoint parse_elements (k : nat) (s : jsstring) (acc : list json)
  : parsed json :=
  match k with
  | O => Exhausted
  | S k' =>
      match skip_ws s with
      | [] => Malformed
      | c :: r =>
          if c =? 93 then Parsed (JArray (rev acc)) r
          else if c =? 44 then
            match parse_value r with
            | Parsed v r' => parse_elements k' r' (v :: acc)
            | Malformed => Malformed
            | Exhausted => Exhausted
            end
          else Malformed
      end
  end.

Definition parse_member (s : jsstring)
  : parsed (jsstring * json) :=
  match closes 34 s with
  | None => Malformed
  | Some r =>
      match parse_chars r [] with
      | None => Malformed
      | Some (key, r1) =>
          match closes 58 r1 with
          | None => Malformed
          | Some r2 =>
              match parse_value r2 with
              | Parsed v r3 => Parsed (key, v) r3
              | Malformed => Malformed
              | Exhausted => Exhausted
              end
          end
      end
  end.

Fixpoint parse_members (k : nat) (s : jsstring)
  (acc : list (jsstring * json)) : parsed json :=
  match k with
  | O => Exhausted
  | S k' =>
      match skip_ws s with
      | [] => Malformed
      | c :: r =>
          if c =? 125 then Parsed (JObject acc) r
          else if c =? 44 then
            match parse_member r with
            | Parsed (key, v) r' => parse_members k' r' (define key v acc)
            | Malformed => Malformed
            | Exhausted => Exhausted
            end
          else Malformed
      end
  end.

End Loops.

Fixpoint parse_value (depth : nat) (s : jsstring) : parsed json :=
  match depth with
  | O => Exhausted
  | S depth' =>
      match skip_ws s with
      | [] => Malformed
      | c :: r =>
          if c =? 123 then
            match closes 125 r with
            | Some r' => Parsed (JObject []) r'
            | None =>
                match parse_member (parse_value depth') r with
                | Parsed (key, v) r' =>
                    parse_members (parse_value depth')
                      (S (List.length r')) r' [(key, v)]
                | Malformed => Malformed
                | Exhausted => Exhausted
                end
            end
          else if c =? 91 then
            match closes 93 r with
            | Some r' => Parsed (JArray []) r'
            | None =>
                match parse_value depth' r with
                | Parsed v r' =>
                    parse_elements (parse_value depth')
                      (S (List.length r')) r' [v]
                | Malformed => Malformed
                | Exhausted => Exhausted
                end
            end
          else if c =? 34 then
            match parse_chars r [] with
            | Some (str, r') => Parsed (JString str) r'
            | None => Malformed
            end
          else if c =? 116 then keyword "true" (JBool true) (c :: r)
          else if c =? 102 then keyword "false" (JBool false) (c :: r)
          else if c =? 110 then keyword "null" JNull (c :: r)
          else
            match parse_number (c :: r) with
            | Some (lit, r') => Parsed (JNumber lit) r'
            | None => Malformed
            end
      end
  end.

(** [JSON.parse(text)]: [None] stands for the [SyntaxError] it throws. *)
Definition JSON_parse (text : jsstring) : option json :=
  match parse_value (S (List.length text)) text with
  | Parsed v r => match skip_ws r with [] => Some v | _ => None end
  | _ => None
  end.

(** ** Objects used as dictionaries

    [tickerData] in [getCoinbasePriceData] starts as [{}] and is written
    by computed key.  Two things make such an object differ from a plain
    association list.  The key [__proto__] is not stored as long as the
    assignment finds the setter inherited from [Object.prototype]: with
    an object on the right-hand side the setter replaces the prototype.
    The setter is no longer found once the prototype is an object that
    owns a data property [__proto__] (a parsed frame with such a field):
    from then on the key is stored like any other.  And the own keys are
    enumerated with the array indices first, in numeric order, followed by
    the other keys in creation order. *)

Record object (V : Type) : Type := Obj {
  prototype : option V;   (* [None]: still [Object.prototype] *)
  shadowed : bool;        (* the prototype owns a property [__proto__] *)
  own : list (jsstring * V)
}.
Arguments Obj {V} prototype shadowed own.
Arguments prototype {V} o.
Arguments shadowed {V} o.
Arguments own {V} o.

(** The literal [{}]. *)
Definition empty_object {V : Type} : object V := Obj None false [].

(** [name in o] for the own properties. *)
Definition has_own {V : Type} (name : jsstring) (props : list (jsstring * V))
  : bool :=
  match lookup name props with Some _ => true | None => false end.

(** [o[key] = v], for a [v] that is an object; [v_owns_proto] tells
    whether [v] owns a property [__proto__].  The assignment walks the
    prototype chain: an own property is overwritten, a data property of
    the prototype makes it define an own one, and only for [__proto__],
    when neither [o] nor its prototype owns that name, the walk reaches
    the setter of [Object.prototype], which makes [v] the prototype. *)
Definition assign {V : Type} (o : object V) (key : jsstring) (v : V)
  (v_owns_proto : bool) : object V :=
  if string_eqb key (js "__proto__")
     && negb (has_own key (own o)) && negb (shadowed o)
  then Obj (Some v) v_owns_proto (own o)
  else Obj (prototype o) (shadowed o) (define key v (own o)).

Definition decimal (s : jsstring) : N :=
  fold_left (fun n c => n * 10 + (c - 48)) s 0.

(** A key is an array index when it is the canonical decimal form of an
    integer below [2^32 - 1]. *)
Definition array_index (key : jsstring) : option N :=
  match key with
  | [] => None
  | c :: r =>
      if forallb is_digit key
         && (negb (c =? 48) || match r with [] => true | _ => false end)
         && (decimal key <? 4294967295)
      then Some (decimal key)
      else None
  end.

Definition is_index (key : jsstring) : bool :=
  match array_index key with Some _ => true | None => false end.

Definition index_of (key : jsstring) : N :=
  match array_index key with Some n => n | None => 0 end.

(** Insertion sort on a comparison [leb]; an element goes before the
    first one it does not exceed, so equal elements keep their order. *)
Section Sort.

Context {A : Type} (leb : A -> A -> bool).

Fixpoint insert (x : A) (l : list A) : list A :=
  match l with
  | [] => [x]
  | y :: l' => if leb x y then x :: l else y :: insert x l'
  end.

Definition sort (l : list A) : list A := fold_right insert [] l.

(** The comparison as a relation. *)
Definition le (x y : A) : Prop := leb x y = true.

End Sort.

(** [OrdinaryOwnPropertyKeys], with the values. *)
Definition Object_entries {V : Type} (o : object V) : list (jsstring * V) :=
  sort (fun a b => index_of (fst a) <=? index_of (fst b))
       (filter (fun e => is_index (fst e)) (own o))
  ++ filter (fun e => negb (is_index (fst e))) (own o).

Definition Object_keys {V : Type} (o : object V) : list jsstring :=
  map fst (Object_entries o).

Definition Object_values {V : Type} (o : object V) : list V :=
  map snd (Object_entries o).

(** ** Array.prototype.sort without a comparison function

    The elements here are strings, compared with [<] on code units. *)
Definition string_leb (a b : jsstring) : bool := negb (string_ltb b a).

Definition Array_sort (a : list jsstring) : list jsstring :=
  sort string_leb a.

(** ** Errors, completions, promises *)

Inductive error : Type :=
| Error (message : jsstring)      (* [new Error(message)] *)
| SyntaxError                     (* thrown by [JSON.parse] *)
| Failure (code : jsstring).      (* an error object made by a library *)

(** A listener returns, or throws out of the event loop turn. *)
Inductive completion (S : Type) : Type :=
| Normal (s : S)
| Throw (e : error).
Arguments Normal {S} s.
Arguments Throw {S} e.

Inductive promise (T : Type) : Type :=
| Pending
| Fulfilled (result : T)
| Rejected (reason : error).
Arguments Pending {T}.
Arguments Fulfilled {T} result.
Arguments Rejected {T} reason.

(** The two functions handed to the executor of [new Promise]: they
    settle a pending promise and do nothing to a settled one. *)
Definition resolve {T : Type} (v : T) (p : promise T) : promise T :=
  match p with Pending => Fulfilled v | _ => p end.

Definition reject {T : Type} (e : error) (p : promise T) : promise T :=
  match p with Pending => Rejected e | _ => p end.

(** [typeof v]. *)
Definition typeof (v : value) : jsstring :=
  match v with
  | None => js "undefined"
  | Some JNull => js "object"
  | Some (JBool _) => js "boolean"
  | Some (JNumber _) => js "number"
  | Some (JString _) => js "string"
  | Some (JArray _) => js "object"
  | Some (JObject _) => js "object"
  end.

(** [v.name] for the four names the type guards read ([type],
    [product_id], [price], [symbol]).  No built-in prototype defines one
    of them, so the read finds an own property of a parsed object or
    yields [undefined]. *)
Definition get (v : json) (name : jsstring) : value :=
  match v with
  | JObject props => lookup name props
  | _ => undefined
  end.

(** Whether a parsed value owns a property of that name. *)
Definition owns (name : jsstring) (v : json) : bool :=
  match v with
  | JObject props => has_own name props
  | _ => false
  end.

(** [v === s] for a string [s]. *)
Definition strict_eq (v : value) (s : jsstring) : bool :=
  match v with
  | Some (JString t) => string_eqb t s
  | _ => false
  end.

(** The string behind a value whose [typeof] is ['string']. *)
Definition string_of (v : value) : jsstring :=
  match v with
  | Some (JString s) => s
  | _ => []
  end.

(* ================================================================= *)
(** * cli.ts *)

Definition coinbaseApiURL : jsstring := js "https://api.pro.coinbase.com".
Definition binanceApiURL : jsstring := js "https://api.binance.com".

(** A type guard for removing null values. *)
Definition isNotNull {T : Type} (value : option T) : bool :=
  match value with Some _ => true | None => false end.

(** [array.filter(isNotNull)] keeps the elements the guard accepts, and
    the guard takes [null] out of the element type: [narrow] is that
    change of type. *)
Definition narrow {T : Type} (a : list (option T)) : list T :=
  flat_map (fun x => match x with Some v => [v] | None => [] end) a.

(** ** Coinbase *)

(** Ticker data from Coinbase: the value as the interface shows it.  The
    field [type] is the constant ['ticker'] and is left out; what else a
    frame carries is outside the interface, and nothing in the program
    reads it. *)
Module CoinbaseTickerData.
Record t : Type := make { product_id : jsstring; price : jsstring }.
End CoinbaseTickerData.

(** Check if a value is a Coinbase ticker object. *)
Definition isCoinbaseTickerData (value : json) : bool :=
  string_eqb (typeof (Some value)) (js "object")
  && match value with JNull => false | _ => true end
  && strict_eq (get value (js "type")) (js "ticker")
  && string_eqb (typeof (get value (js "product_id"))) (js "string")
  && string_eqb (typeof (get value (js "price"))) (js "string").

(** The value as the guard types it. *)
Definition asCoinbaseTickerData (value : json)
  : option CoinbaseTickerData.t :=
  if isCoinbaseTickerData value then
    Some (CoinbaseTickerData.make
            (string_of (get value (js "product_id")))
            (string_of (get value (js "price"))))
  else None.

(** What the websocket library is asked to do.  [WsSend config] stands for
    [connection.send(JSON.stringify(config))]. *)
Inductive ws_action : Type :=
| WsConnect (url : jsstring)
| WsSend (config : json)
| WsClose.

(** A frame as the library hands it to the ['message'] listener. *)
Inductive message : Type :=
| Utf8 (utf8Data : jsstring)
| Binary (binaryData : list N).

(** What the library reports: ['connect'] and ['connectFailed'] on the
    client, ['message'] and ['error'] on the connection. *)
Inductive ws_event : Type :=
| Connect
| ConnectFailed (e : error)
| Message (m : message)
| ConnectionError (e : error).

(** The closure of one call of [getCoinbasePriceData]. *)
Record collector : Type := Collector {
  tickerData : object CoinbaseTickerData.t;
  ws_promise : promise (list CoinbaseTickerData.t);
  connected : bool;              (* the ['connect'] listener has run *)
  ws_log : list ws_action
}.

(** Get Coinbase exchange rates for product IDs like 'BTC-GBP': the state
    when the call returns its promise. *)
Definition getCoinbasePriceData (productIds : list jsstring) : collector :=
  Collector empty_object Pending false
            [WsConnect (js "wss://ws-feed.pro.coinbase.com")].

Definition subscribe (productIds : list jsstring) : json :=
  JObject [ (js "type", JString (js "subscribe"));
            (js "product_ids", JArray (map JString productIds));
            (js "channels", JArray [JString (js "ticker")]) ].

(** [client.on('connect', connection => ...)]: registers the two
    listeners on the connection and sends the subscription. *)
Definition on_connect (productIds : list jsstring) (st : collector)
  : collector :=
  Collector (tickerData st) (ws_promise st) true
            (ws_log st ++ [WsSend (subscribe productIds)]).

(** [connection.on('error', error => ...)] *)
Definition on_error (st : collector) (error : error) : collector :=
  Collector (tickerData st) (reject error (ws_promise st)) (connected st)
            (ws_log st ++ [WsClose]).

(** [connection.on('message', message => ...)] *)
Definition on_message (productIds : list jsstring) (st : collector)
  (message : message) : completion collector :=
  match message with
  | Utf8 utf8Data =>
      match JSON_parse utf8Data with
      | None => Throw SyntaxError
      | Some data =>
          match asCoinbaseTickerData data with
          | Some ticker =>
              let tickerData :=
                assign (tickerData st)
                       (CoinbaseTickerData.product_id ticker) ticker
                       (owns (js "__proto__") data) in
              if Nat.eqb (List.length (Object_keys tickerData))
                         (List.length productIds)
              then
                Normal (Collector tickerData
                          (resolve (Object_values tickerData) (ws_promise st))
                          (connected st)
                          (ws_log st ++ [WsClose]))
              else
                Normal (Collector tickerData (ws_promise st) (connected st)
                          (ws_log st))
          | None => Normal st
          end
      end
  | Binary _ => Normal st
  end.

(** One event of the websocket library.  The listeners on the connection
    exist once ['connect'] has been handled; ['connectFailed'] has no
    listener. *)
Definition coinbase_step (productIds : list jsstring) (st : collector)
  (ev : ws_event) : completion collector :=
  match ev with
  | Connect => Normal (on_connect productIds st)
  | ConnectFailed _ => Normal st
  | Message m => if connected st then on_message productIds st m
                 else Normal st
  | ConnectionError e => if connected st then Normal (on_error st e)
                         else Normal st
  end.

(** A sequence of events; a throw ends it. *)
Fixpoint coinbase_run (productIds : list jsstring) (st : collector)
  (evs : list ws_event) : completion collector :=
  match evs with
  | [] => Normal st
  | ev :: evs' =>
      match coinbase_step productIds st ev with
      | Normal st' => coinbase_run productIds st' evs'
      | Throw e => Throw e
      end
  end.

(** In the words of the specification: a frame is a valid ticker frame
    when its text parses and the value passes the guard; a frame can be
    read when the listener gets through it without an exception; the last
    valid ticker frame for a symbol is the latest frame of the sequence
    that is a valid ticker with that product id. *)
Definition ticker_of (m : message) : option CoinbaseTickerData.t :=
  match m with
  | Utf8 utf8Data =>
      match JSON_parse utf8Data with
      | Some data => asCoinbaseTickerData data
      | None => None
      end
  | Binary _ => None
  end.

(** Whether the object of a frame owns a property [__proto__]. *)
Definition shadows (m : message) : bool :=
  match m with
  | Utf8 utf8Data =>
      match JSON_parse utf8Data with
      | Some data => owns (js "__proto__") data
      | None => false
      end
  | Binary _ => false
  end.

Definition readable (m : message) : Prop :=
  match m with
  | Utf8 utf8Data => JSON_parse utf8Data <> None
  | Binary _ => True
  end.

Fixpoint last_ticker (symbol : jsstring) (frames : list message)
  : option CoinbaseTickerData.t :=
  match frames with
  | [] => None
  | m :: frames' =>
      match last_ticker symbol frames' with
      | Some d => Some d
      | None =>
          match ticker_of m with
          | Some d =>
              if string_eqb (CoinbaseTickerData.product_id d) symbol
              then Some d else None
          | None => None
          end
      end
  end.

(** The valid ticker frames name requested products only. *)
Definition requested (productIds : list jsstring) (frames : list message)
  : Prop :=
  forall m d, In m frames -> ticker_of m = Some d ->
              In (CoinbaseTickerData.product_id d) productIds.

(** A literal of JSON text, written with ['] where the text has the
    double quote. *)
Definition text (s : string) : jsstring :=
  map (fun c => if c =? 39 then 34 else c) (js s).

(** The text frame of a ticker, as the feed sends it. *)
Definition ticker_frame (product_id price : string) : message :=
  Utf8 (text "{'type':'ticker','product_id':'" ++ js product_id
        ++ text "','price':'" ++ js price ++ text "'}").

(** What holds of the closure while it is still collecting, after the
    frames [seen]: the listeners are registered, the promise is pending,
    [tickerData] has fewer keys than there are product ids, no key twice,
    and under every key the last valid ticker seen for it. *)
Definition collecting (productIds : list jsstring) (st : collector)
  (seen : list message) : Prop :=
  connected st = true
  /\ ws_promise st = Pending
  /\ NoDup (map fst (own (tickerData st)))
  /\ (List.length (own (tickerData st)) < List.length productIds)%nat
  /\ forall key, lookup key (own (tickerData st)) = last_ticker key seen.

(** ** Binance *)

(** Ticker data from Binance *)
Module BinanceTickerData.
Record t : Type := make { symbol : jsstring; price : jsstring }.
End BinanceTickerData.

(** Check if a value is a Binance ticker object. *)
Definition isBinanceTickerData (value : json) : bool :=
  string_eqb (typeof (Some value)) (js "object")
  && match value with JNull => false | _ => true end
  && string_eqb (typeof (get value (js "symbol"))) (js "string")
  && string_eqb (typeof (get value (js "price"))) (js "string").

(** The value as the guard types it. *)
Definition asBinanceTickerData (value : json) : BinanceTickerData.t :=
  BinanceTickerData.make (string_of (get value (js "symbol")))
                         (string_of (get value (js "price"))).

(** The arrow function given to [json.map]: [productIds.find] returns the
    first pair whose first component is the symbol. *)
Definition rename (productIds : list (jsstring * jsstring))
  (item : BinanceTickerData.t) : option BinanceTickerData.t :=
  let symbol := BinanceTickerData.symbol item in
  let price := BinanceTickerData.price item in
  let idPair := find (fun x => string_eqb (fst x) symbol) productIds in
  match idPair with
  | Some idPair =>
      (* Replace the original symbols with our own symbol,
         so they are more human-readable. *)
      Some (BinanceTickerData.make (snd idPair) price)
  | None => None
  end.

Inductive http_action : Type :=
| HttpGet (url : jsstring).

(** What the https library reports: the response callback, ['data'] and
    ['end'] on the response, ['error'] on the request. *)
Inductive http_event : Type :=
| Response
| Data (chunk : jsstring)       (* the chunk as [body += chunk] reads it *)
| End
| RequestError (e : error).

(** The closure of one call of [getBinancePriceData]. *)
Record fetcher : Type := Fetcher {
  body : option jsstring;        (* [None] until the response callback *)
  http_promise : promise (list BinanceTickerData.t);
  http_log : list http_action
}.

(** Get Binance exchange rates for product IDs like 'ADABTC', with a
    replacement string for the values like 'ADA-BTC' to fit Coinbase's
    format: the state when the call returns its promise. *)
Definition getBinancePriceData (productIds : list (jsstring * jsstring))
  : fetcher :=
  Fetcher None Pending [HttpGet (binanceApiURL ++ js "/api/v3/ticker/price")].

(** The argument of [resolve]:
    [json.map(({symbol, price}) => ...).filter(isNotNull)]. *)
Definition translate (productIds : list (jsstring * jsstring))
  (json : list BinanceTickerData.t) : list BinanceTickerData.t :=
  narrow (filter isNotNull (map (rename productIds) json)).

(** What the translation emits for one record, in the words of the
    specification: when some pair of the remap has the record's symbol as
    its source symbol, one quote with that pair's target symbol and the
    price unchanged; nothing when no pair has. *)
Inductive emits (remap : list (jsstring * jsstring))
  (record : BinanceTickerData.t) : list BinanceTickerData.t -> Prop :=
| emits_match (target : jsstring) :
    In (BinanceTickerData.symbol record, target) remap ->
    emits remap record
      [BinanceTickerData.make target (BinanceTickerData.price record)]
| emits_drop :
    (forall target, ~ In (BinanceTickerData.symbol record, target) remap) ->
    emits remap record [].

Definition invalid_response : error :=
  Error (js "Invalid JSON response data").

(** [res.on('end', () => ...)], with the content of [body]. *)
Definition on_end (productIds : list (jsstring * jsstring)) (st : fetcher)
  (content : jsstring) : completion fetcher :=
  match JSON_parse content with
  | None => Throw SyntaxError
  | Some json =>
      match json with
      | JArray items =>
          if forallb isBinanceTickerData items then
            Normal (Fetcher (body st)
                      (resolve
                         (translate productIds
                            (map asBinanceTickerData items))
                         (http_promise st))
                      (http_log st))
          else
            Normal (Fetcher (body st)
                      (reject invalid_response (http_promise st))
                      (http_log st))
      | _ =>
          Normal (Fetcher (body st)
                    (reject invalid_response (http_promise st))
                    (http_log st))
      end
  end.

(** One event of the https library.  The request has no ['error']
    listener, so the emitter throws the error it was asked to emit. *)
Definition binance_step (productIds : list (jsstring * jsstring))
  (st : fetcher) (ev : http_event) : completion fetcher :=
  match ev with
  | Response => Normal (Fetcher (Some []) (http_promise st) (http_log st))
  | Data chunk =>
      match body st with
      | Some b =>
          Normal (Fetcher (Some (b ++ chunk)) (http_promise st) (http_log st))
      | None => Normal st
      end
  | End =>
      match body st with
      | Some b => on_end productIds st b
      | None => Normal st
      end
  | RequestError e => Throw e
  end.

Fixpoint binance_run (productIds : list (jsstring * jsstring))
  (st : fetcher) (evs : list http_event) : completion fetcher :=
  match evs with
  | [] => Normal st
  | ev :: evs' =>
      match binance_step productIds st ev with
      | Normal st' => binance_run productIds st' evs'
      | Throw e => Throw e
      end
  end.

(** ** printExchangeRates *)

Definition newline : jsstring := [10].

Definition binance_line (q : BinanceTickerData.t) : jsstring :=
  js "Binance," ++ BinanceTickerData.symbol q ++ js ","
  ++ BinanceTickerData.price q ++ newline.

Definition coinbase_line (q : CoinbaseTickerData.t) : jsstring :=
  js "Coinbase," ++ CoinbaseTickerData.product_id q ++ js ","
  ++ CoinbaseTickerData.price q ++ newline.

(** The array [lines] after [lines.sort()]. *)
Definition lines (coinbaseResults : list CoinbaseTickerData.t)
  (binanceResults : list BinanceTickerData.t) : list jsstring :=
  Array_sort (map binance_line binanceResults
              ++ map coinbase_line coinbaseResults).

(** The statements after the [await]: the calls of [stdout.write], in
    order. *)
Definition print (coinbaseResults : list CoinbaseTickerData.t)
  (binanceResults : list BinanceTickerData.t) : list jsstring :=
  (js "Exchange,Market,Price" ++ newline)
  :: lines coinbaseResults binanceResults.

(** The same in the words of the specification: a row carries the name
    of its exchange, and is formatted as the three fields separated by
    commas and followed by a line terminator; rows are compared as
    strings, in lexicographic order. *)
Module AggregatedRow.
Record t : Type := make {
  exchangeName : jsstring;
  symbol : jsstring;
  price : jsstring
}.
End AggregatedRow.

Definition tag_coinbase (q : CoinbaseTickerData.t) : AggregatedRow.t :=
  AggregatedRow.make (js "Coinbase") (CoinbaseTickerData.product_id q)
                     (CoinbaseTickerData.price q).

Definition tag_binance (q : BinanceTickerData.t) : AggregatedRow.t :=
  AggregatedRow.make (js "Binance") (BinanceTickerData.symbol q)
                     (BinanceTickerData.price q).

Definition format_row (r : AggregatedRow.t) : jsstring :=
  AggregatedRow.exchangeName r ++ js "," ++ AggregatedRow.symbol r
  ++ js "," ++ AggregatedRow.price r ++ newline.

Inductive lex_lt : jsstring -> jsstring -> Prop :=
| lex_prefix (y : code_unit) (b : jsstring) : lex_lt [] (y :: b)
| lex_first (x y : code_unit) (a b : jsstring) :
    x < y -> lex_lt (x :: a) (y :: b)
| lex_rest (x : code_unit) (a b : jsstring) :
    lex_lt a b -> lex_lt (x :: a) (x :: b).

Definition lex_le (a b : jsstring) : Prop := lex_lt a b \/ a = b.

(** [Promise.all([a, b])], read off the two promises.  It is read after
    every event, and an event belongs to one of the two sources, so a
    rejection is seen before the other promise can reject as well. *)
Definition Promise_all {A B : Type} (a : promise A) (b : promise B)
  : promise (A * B) :=
  match a, b with
  | Rejected e, _ => Rejected e
  | _, Rejected e => Rejected e
  | Fulfilled x, Fulfilled y => Fulfilled (x, y)
  | _, _ => Pending
  end.

Definition coinbaseProducts : list jsstring :=
  [js "XTZ-GBP"; js "LINK-GBP"; js "BTC-GBP"].

Definition binanceProducts : list (jsstring * jsstring) :=
  [(js "ADABTC", js "ADA-BTC"); (js "DOTBTC", js "DOT-BTC")].

(** The program: the two closures, the promise of [printExchangeRates()],
    what was written to [stdout], what [console.error] was given by the
    [.catch] at the end of the file, and the exception that reached the
    event loop, which ends the process. *)
Record process : Type := Process {
  coinbase : collector;
  binance : fetcher;
  aggregate : promise unit;
  stdout : list jsstring;
  console_error : list error;
  uncaught : option error
}.

(** Get exchange rates from cryptocurrency exchanges and print them as
    CSV: the state when the module has been evaluated. *)
Definition printExchangeRates : process :=
  Process (getCoinbasePriceData coinbaseProducts)
          (getBinancePriceData binanceProducts)
          Pending [] [] None.

(** The promise jobs after a listener has returned: the [await] resumes
    the function or rejects its promise, and the [.catch] logs. *)
Definition settle (p : process) : process :=
  match aggregate p with
  | Pending =>
      match Promise_all (ws_promise (coinbase p)) (http_promise (binance p))
      with
      | Fulfilled (coinbaseResults, binanceResults) =>
          Process (coinbase p) (binance p) (Fulfilled tt)
                  (stdout p ++ print coinbaseResults binanceResults)
                  (console_error p) (uncaught p)
      | Rejected err =>
          Process (coinbase p) (binance p) (Rejected err) (stdout p)
                  (console_error p ++ [err]) (uncaught p)
      | Pending => p
      end
  | _ => p
  end.

(** What holds of the program between two turns of the event loop:
    nothing is written or logged while the promise of
    [printExchangeRates()] is pending, a rejection comes from one of the
    two sources and is logged once, and a fulfilment follows the output
    of both results. *)
Definition consistent (p : process) : Prop :=
  match aggregate p with
  | Pending =>
      stdout p = [] /\ console_error p = []
      /\ Promise_all (ws_promise (coinbase p)) (http_promise (binance p))
         = Pending
  | Rejected e =>
      stdout p = [] /\ console_error p = [e]
      /\ (ws_promise (coinbase p) = Rejected e
          \/ http_promise (binance p) = Rejected e)
  | Fulfilled _ =>
      exists coinbaseResults binanceResults,
        ws_promise (coinbase p) = Fulfilled coinbaseResults
        /\ http_promise (binance p) = Fulfilled binanceResults
        /\ stdout p = print coinbaseResults binanceResults
        /\ console_error p = []
  end.

Inductive event : Type :=
| Ws (e : ws_event)
| Http (e : http_event).

(** One turn of the event loop. *)
Definition step (p : process) (ev : event) : process :=
  match uncaught p with
  | Some _ => p
  | None =>
      match ev with
      | Ws e =>
          match coinbase_step coinbaseProducts (coinbase p) e with
          | Normal c =>
              settle (Process c (binance p) (aggregate p) (stdout p)
                              (console_error p) None)
          | Throw err =>
              Process (coinbase p) (binance p) (aggregate p) (stdout p)
                      (console_error p) (Some err)
          end
      | Http e =>
          match binance_step binanceProducts (binance p) e with
          | Normal b =>
              settle (Process (coinbase p) b (aggregate p) (stdout p)
                              (console_error p) None)
          | Throw err =>
              Process (coinbase p) (binance p) (aggregate p) (stdout p)
                      (console_error p) (Some err)
          end
      end
  end.

Definition run (p : process) (evs : list event) : process :=
  fold_left step evs p.

(** The exit status.  The program never assigns [process.exitCode] and
    never calls [process.exit], so the process ends with the runtime's
    default: 1 after an uncaught exception, 0 otherwise. *)
Definition exit_status (p : process) : Z :=
  match uncaught p with
  | Some _ => 1%Z
  | None => 0%Z
  end.

(* ================================================================= *)
(** * Vocabulary for the properties of whole runs *)

(** The closure after the ['message'] listener has stored a valid ticker:
    the branch of [on_message] under the guard. *)
Definition store (productIds : list jsstring) (st : collector)
  (d : CoinbaseTickerData.t) (d_owns_proto : bool) : collector :=
  let tickerData :=
    assign (tickerData st) (CoinbaseTickerData.product_id d) d
           d_owns_proto in
  if Nat.eqb (List.length (Object_keys tickerData))
             (List.length productIds)
  then Collector tickerData
         (resolve (Object_values tickerData) (ws_promise st))
         (connected st) (ws_log st ++ [WsClose])
  else Collector tickerData (ws_promise st) (connected st) (ws_log st).

(** The frames among the events of the websocket library, the
    ['connect'] events among them, and the subscriptions among the
    actions asked of the library. *)
Definition messages (evs : list ws_event) : list message :=
  flat_map (fun ev => match ev with Message m => [m] | _ => [] end) evs.

Definition is_connect (ev : ws_event) : bool :=
  match ev with Connect => true | _ => false end.

Definition sends (log : list ws_action) : list json :=
  flat_map (fun a => match a with WsSend config => [config] | _ => [] end)
           log.

Definition is_end (ev : http_event) : bool :=
  match ev with End => true | _ => false end.

(** What holds of the closure of [getCoinbasePriceData] after any events
    with the frames [received]: no key twice in [tickerData], under each
    key a ticker with that product id that came in a frame, and a
    fulfilled promise holds as many quotes as products were asked for,
    with distinct product ids, each from a frame. *)
Definition shaped (productIds : list jsstring) (received : list message)
  (st : collector) : Prop :=
  NoDup (map fst (own (tickerData st)))
  /\ (forall k v, In (k, v) (own (tickerData st)) ->
        CoinbaseTickerData.product_id v = k
        /\ exists m, In m received /\ ticker_of m = Some v)
  /\ forall quotes, ws_promise st = Fulfilled quotes ->
       List.length quotes = List.length productIds
       /\ NoDup (map CoinbaseTickerData.product_id quotes)
       /\ forall q, In q quotes ->
            exists m, In m received /\ ticker_of m = Some q.

(** The events of each source among the events of the program. *)
Definition ws_events (evs : list event) : list ws_event :=
  flat_map (fun ev => match ev with Ws e => [e] | Http _ => [] end) evs.

Definition http_events (evs : list event) : list http_event :=
  flat_map (fun ev => match ev with Http e => [e] | Ws _ => [] end) evs.

(* ================================================================= *)
(** * Properties of the runtime *)

Lemma string_eqb_eq (a b : jsstring) : string_eqb a b = true <-> a = b.
Proof.
  revert b; induction a as [|x a IH]; intros [|y b]; simpl;
    try (split; [discriminate | congruence]); try tauto.
  rewrite andb_true_iff, N.eqb_eq, IH.
  split; [intros [-> ->]; reflexivity | intros H; injection H; auto].
Qed.

Lemma string_eqb_refl (a : jsstring) : string_eqb a a = true.
Proof. apply string_eqb_eq; reflexivity. Qed.

Lemma string_eqb_neq (a b : jsstring) : string_eqb a b = false <-> a <> b.
Proof.
  rewrite <- string_eqb_eq.
  destruct (string_eqb a b); split; congruence.
Qed.

Lemma string_ltb_irrefl (a : jsstring) : string_ltb a a = false.
Proof.
  induction a as [|x a IH]; simpl; [reflexivity|].
  rewrite N.ltb_irrefl; exact IH.
Qed.

Lemma string_ltb_trans (a b c : jsstring) :
  string_ltb a b = true -> string_ltb b c = true -> string_ltb a c = true.
Proof.
  revert b c; induction a as [|x a IH]; intros [|y b] [|z c]; simpl;
    try discriminate; try reflexivity.
  destruct (N.ltb_spec x y), (N.ltb_spec y x), (N.ltb_spec y z),
    (N.ltb_spec z y), (N.ltb_spec x z), (N.ltb_spec z x);
    try discriminate; try reflexivity; try lia.
  apply IH.
Qed.

Lemma string_ltb_connex (a b : jsstring) :
  string_ltb a b = false -> string_ltb b a = false -> a = b.
Proof.
  revert b; induction a as [|x a IH]; intros [|y b]; simpl;
    try discriminate; try reflexivity.
  destruct (N.ltb_spec x y), (N.ltb_spec y x); try discriminate; try lia.
  intros Hab Hba.
  assert (x = y) by lia; subst.
  f_equal; auto.
Qed.

Lemma string_ltb_asym (a b : jsstring) :
  string_ltb a b = true -> string_ltb b a = false.
Proof.
  intros H.
  destruct (string_ltb b a) eqn:E; [|reflexivity].
  pose proof (string_ltb_trans _ _ _ H E) as Haa.
  rewrite string_ltb_irrefl in Haa; discriminate.
Qed.

Lemma string_leb_total (a b : jsstring) :
  string_leb a b = true \/ string_leb b a = true.
Proof.
  unfold string_leb.
  destruct (string_ltb b a) eqn:E; [right | left; reflexivity].
  rewrite (string_ltb_asym _ _ E); reflexivity.
Qed.

Lemma string_leb_trans (a b c : jsstring) :
  string_leb a b = true -> string_leb b c = true -> string_leb a c = true.
Proof.
  unfold string_leb; rewrite !negb_true_iff.
  intros Hba Hcb.
  destruct (string_ltb c a) eqn:Hca; [|reflexivity].
  destruct (string_ltb a b) eqn:Hab.
  - rewrite (string_ltb_trans _ _ _ Hca Hab) in Hcb; discriminate.
  - rewrite (string_ltb_connex _ _ Hab Hba) in Hca; congruence.
Qed.

Lemma string_leb_antisym (a b : jsstring) :
  string_leb a b = true -> string_leb b a = true -> a = b.
Proof.
  unfold string_leb; rewrite !negb_true_iff.
  intros Hba Hab; apply string_ltb_connex; assumption.
Qed.

(** Insertion sort returns a sorted permutation; for an order (total,
    transitive, antisymmetric) that list is the only one. *)
Section SortFacts.

Context {A : Type} (leb : A -> A -> bool).

Lemma insert_perm (x : A) (l : list A) :
  Permutation (insert leb x l) (x :: l).
Proof.
  induction l as [|y l IH]; simpl; [reflexivity|].
  destruct (leb x y); [reflexivity|].
  rewrite IH; apply perm_swap.
Qed.

Lemma sort_perm (l : list A) : Permutation (sort leb l) l.
Proof.
  induction l as [|x l IH]; simpl; [reflexivity|].
  rewrite insert_perm, IH; reflexivity.
Qed.

Hypothesis leb_total : forall x y, leb x y = true \/ leb y x = true.

Lemma insert_sorted (x : A) (l : list A) :
  Sorted (le leb) l -> Sorted (le leb) (insert leb x l).
Proof.
  induction l as [|y l IH]; simpl; intros Hs.
  - repeat constructor.
  - destruct (leb x y) eqn:E.
    + constructor; [assumption | constructor; exact E].
    + inversion Hs as [|? ? Hl Hhd]; subst.
      constructor; [apply IH; assumption|].
      assert (Hyx : le leb y x)
        by (destruct (leb_total x y); [congruence | assumption]).
      destruct l as [|z l]; simpl; [constructor; exact Hyx|].
      destruct (leb x z); constructor;
        [exact Hyx | inversion Hhd; assumption].
Qed.

Lemma sort_sorted (l : list A) : Sorted (le leb) (sort leb l).
Proof.
  induction l as [|x l IH]; simpl; [constructor|].
  apply insert_sorted; exact IH.
Qed.

Hypothesis leb_trans :
  forall x y z, leb x y = true -> leb y z = true -> leb x z = true.
Hypothesis leb_antisym :
  forall x y, leb x y = true -> leb y x = true -> x = y.

Lemma sorted_head_least (x : A) (l : list A) :
  Sorted (le leb) (x :: l) -> forall y, In y l -> le leb x y.
Proof.
  intros Hs.
  apply Sorted_StronglySorted in Hs;
    [| intros a b c; apply leb_trans ].
  inversion Hs as [|? ? _ Hall]; subst.
  intros y Hy; rewrite Forall_forall in Hall; apply Hall; exact Hy.
Qed.

Lemma sorted_perm_unique (l1 l2 : list A) :
  Sorted (le leb) l1 -> Sorted (le leb) l2 -> Permutation l1 l2 -> l1 = l2.
Proof.
  revert l2; induction l1 as [|x l1 IH]; intros l2 H1 H2 HP.
  - apply Permutation_nil in HP; congruence.
  - destruct l2 as [|y l2];
      [apply Permutation_sym, Permutation_nil in HP; discriminate|].
    assert (x = y) as ->.
    { assert (Hx : In x (y :: l2))
        by (apply (Permutation_in _ HP); left; reflexivity).
      assert (Hy : In y (x :: l1))
        by (apply (Permutation_in _ (Permutation_sym HP)); left;
            reflexivity).
      destruct Hx as [->|Hx]; [reflexivity|].
      destruct Hy as [->|Hy]; [reflexivity|].
      apply leb_antisym.
      - apply (sorted_head_least _ _ H1 _ Hy).
      - apply (sorted_head_least _ _ H2 _ Hx). }
    f_equal; apply IH.
    + inversion H1; assumption.
    + inversion H2; assumption.
    + apply Permutation_cons_inv in HP; exact HP.
Qed.

End SortFacts.

(* ================================================================= *)
(** * JSON.parse never runs out of its bounds *)

Lemma skip_ws_length (s : jsstring) :
  (List.length (skip_ws s) <= List.length s)%nat.
Proof.
  induction s as [|c s IH]; simpl; [lia|].
  destruct (is_ws c); simpl; lia.
Qed.

Lemma closes_length (c : code_unit) (s r : jsstring) :
  closes c s = Some r -> (List.length r < List.length s)%nat.
Proof.
  unfold closes.
  pose proof (skip_ws_length s) as Hws.
  destruct (skip_ws s) as [|c' r']; [discriminate|].
  destruct (c' =? c); [|discriminate].
  intros H; injection H as <-; simpl in Hws; lia.
Qed.

Lemma digits_length (s : jsstring) :
  (List.length (snd (digits s)) <= List.length s)%nat.
Proof.
  induction s as [|c s IH]; simpl; [lia|].
  destruct (is_digit c); [|simpl; lia].
  destruct (digits s) as [ds r]; simpl in *; lia.
Qed.

Lemma parse_chars_length (s acc str r : jsstring) :
  parse_chars s acc = Some (str, r) -> (List.length r < List.length s)%nat.
Proof.
  remember (List.length s) as n eqn:Hn.
  revert s acc Hn; induction n as [n IH] using lt_wf_ind; intros s acc ->.
  destruct s as [|c s]; simpl; [discriminate|].
  destruct (c =? 34); [intros H; injection H as _ <-; lia|].
  destruct (c =? 92).
  - destruct s as [|e s]; [discriminate|].
    destruct (e =? 117).
    + destruct s as [|h1 [|h2 [|h3 [|h4 s]]]]; try discriminate.
      destruct (hex4 h1 h2 h3 h4); [|discriminate].
      intros H; eapply IH in H; [| |reflexivity]; simpl in *; lia.
    + destruct (escape e); [|discriminate].
      intros H; eapply IH in H; [| |reflexivity]; simpl in *; lia.
  - destruct (c <? 32); [discriminate|].
    intros H; eapply IH in H; [| |reflexivity]; simpl in *; lia.
Qed.

Lemma parse_number_length (s lit r : jsstring) :
  parse_number s = Some (lit, r) -> (List.length r < List.length s)%nat.
Proof.
  unfold parse_number.
  assert (Hsign : (List.length (snd (parse_minus s)) <= List.length s)%nat).
  { destruct s as [|c s]; simpl; [lia|]. destruct (c =? 45); simpl; lia. }
  destruct (parse_minus s) as [sign s1]; simpl in Hsign.
  destruct (parse_int s1) as [[i s2]|] eqn:Hint; [|discriminate].
  assert (H2 : (List.length s2 < List.length s1)%nat).
  { destruct s1 as [|c s1]; simpl in Hint; [discriminate|].
    destruct (c =? 48); [injection Hint as _ <-; simpl; lia|].
    destruct (is_digit c); [|discriminate].
    pose proof (digits_length s1) as Hd.
    destruct (digits s1) as [ds r']; injection Hint as _ <-.
    simpl in *; lia. }
  destruct (parse_frac s2) as [[f s3]|] eqn:Hfrac; [|discriminate].
  assert (H3 : (List.length s3 <= List.length s2)%nat).
  { destruct s2 as [|c s2]; simpl in Hfrac;
      [injection Hfrac as _ <-; simpl; lia|].
    destruct (c =? 46); [|injection Hfrac as _ <-; simpl; lia].
    pose proof (digits_length s2) as Hd.
    destruct (digits s2) as [[|d ds] r']; [discriminate|].
    injection Hfrac as _ <-; simpl in *; lia. }
  destruct (parse_exp s3) as [[e s4]|] eqn:Hexp; [|discriminate].
  assert (H4 : (List.length s4 <= List.length s3)%nat).
  { destruct s3 as [|c s3]; simpl in Hexp;
      [injection Hexp as _ <-; simpl; lia|].
    destruct ((c =? 101) || (c =? 69)); [|injection Hexp as _ <-; simpl; lia].
    assert (Hs : (List.length (snd (parse_sign s3)) <= List.length s3)%nat).
    { destruct s3 as [|c' s3]; simpl; [lia|].
      destruct ((c' =? 43) || (c' =? 45)); simpl; lia. }
    destruct (parse_sign s3) as [sg r1]; simpl in Hs.
    pose proof (digits_length r1) as Hd.
    destruct (digits r1) as [[|d ds] r']; [discriminate|].
    injection Hexp as _ <-; simpl in *; lia. }
  intros H; injection H as _ <-; lia.
Qed.

Lemma starts_with_length (p s r : jsstring) :
  starts_with p s = Some r ->
  List.length s = (List.length p + List.length r)%nat.
Proof.
  revert s; induction p as [|x p IH]; intros [|y s]; simpl;
    try discriminate; try (intros H; injection H as <-; reflexivity).
  destruct (x =? y); [|discriminate].
  intros H; rewrite (IH _ H); reflexivity.
Qed.

Lemma keyword_length (w : string) (v v' : json) (s r : jsstring) :
  w <> EmptyString ->
  keyword w v s = Parsed v' r -> (List.length r < List.length s)%nat.
Proof.
  unfold keyword; intros Hw.
  destruct (starts_with (js w) s) as [r'|] eqn:E; [|discriminate].
  intros H; injection H as _ <-.
  apply starts_with_length in E; rewrite E.
  destruct w; [congruence | simpl; lia].
Qed.

Section LoopsTotal.

Variable pv : jsstring -> parsed json.
Variable bound : nat.
Hypothesis pv_total :
  forall s, (List.length s < bound)%nat ->
    pv s <> Exhausted
    /\ forall v r, pv s = Parsed v r ->
                   (List.length r < List.length s)%nat.

Lemma parse_member_total (s : jsstring) :
  (List.length s <= bound)%nat ->
  parse_member pv s <> Exhausted
  /\ forall kv r, parse_member pv s = Parsed kv r ->
                  (List.length r < List.length s)%nat.
Proof.
  intros Hs; unfold parse_member.
  destruct (closes 34 s) as [r0|] eqn:E0;
    [|split; [discriminate | intros ? ?; discriminate]].
  apply closes_length in E0.
  destruct (parse_chars r0 []) as [[key r1]|] eqn:E1;
    [|split; [discriminate | intros ? ?; discriminate]].
  apply parse_chars_length in E1.
  destruct (closes 58 r1) as [r2|] eqn:E2;
    [|split; [discriminate | intros ? ?; discriminate]].
  apply closes_length in E2.
  destruct (pv_total r2) as [Hne Hlt]; [lia|].
  destruct (pv r2) as [v r3| |]; [|split; [discriminate | intros ? ?;
    discriminate] | congruence].
  split; [discriminate|].
  intros kv r H; injection H as _ <-.
  specialize (Hlt v r3 eq_refl); lia.
Qed.

Lemma parse_elements_total (k : nat) :
  forall s acc,
    (List.length s < k)%nat -> (List.length s <= bound)%nat ->
    parse_elements pv k s acc <> Exhausted
    /\ forall v r, parse_elements pv k s acc = Parsed v r ->
                   (List.length r < List.length s)%nat.
Proof.
  induction k as [|k IH]; intros s acc Hk Hb; [lia|]; simpl.
  pose proof (skip_ws_length s) as Hws.
  destruct (skip_ws s) as [|c r];
    [split; [discriminate | intros ? ?; discriminate]|].
  simpl in Hws.
  destruct (c =? 93).
  { split; [discriminate|]. intros v r' H; injection H as _ <-; lia. }
  destruct (c =? 44);
    [|split; [discriminate | intros ? ?; discriminate]].
  destruct (pv_total r) as [Hne Hlt]; [lia|].
  destruct (pv r) as [v r'| |];
    [|split; [discriminate | intros ? ?; discriminate] | congruence].
  specialize (Hlt v r' eq_refl).
  destruct (IH r' (v :: acc)) as [Hne' Hlt']; [lia | lia|].
  split; [exact Hne'|].
  intros v' r'' H; specialize (Hlt' _ _ H); lia.
Qed.

Lemma parse_members_total (k : nat) :
  forall s acc,
    (List.length s < k)%nat -> (List.length s <= bound)%nat ->
    parse_members pv k s acc <> Exhausted
    /\ forall v r, parse_members pv k s acc = Parsed v r ->
                   (List.length r < List.length s)%nat.
Proof.
  induction k as [|k IH]; intros s acc Hk Hb; [lia|]; simpl.
  pose proof (skip_ws_length s) as Hws.
  destruct (skip_ws s) as [|c r];
    [split; [discriminate | intros ? ?; discriminate]|].
  simpl in Hws.
  destruct (c =? 125).
  { split; [discriminate|]. intros v r' H; injection H as _ <-; lia. }
  destruct (c =? 44);
    [|split; [discriminate | intros ? ?; discriminate]].
  destruct (parse_member_total r) as [Hne Hlt]; [lia|].
  destruct (parse_member pv r) as [[key v] r'| |];
    [|split; [discriminate | intros ? ?; discriminate] | congruence].
  specialize (Hlt _ _ eq_refl).
  destruct (IH r' (define key v acc)) as [Hne' Hlt']; [lia | lia|].
  split; [exact Hne'|].
  intros v' r'' H; specialize (Hlt' _ _ H); lia.
Qed.

End LoopsTotal.

Lemma parse_value_total (depth : nat) :
  forall s, (List.length s < depth)%nat ->
    parse_value depth s <> Exhausted
    /\ forall v r, parse_value depth s = Parsed v r ->
                   (List.length r < List.length s)%nat.
Proof.
  induction depth as [|depth IH]; intros s Hs; [lia|].
  cbn [parse_value].
  pose proof (skip_ws_length s) as Hws.
  destruct (skip_ws s) as [|c r];
    [split; [discriminate | intros ? ?; discriminate]|].
  simpl in Hws.
  destruct (c =? 123).
  { destruct (closes 125 r) as [r'|] eqn:E.
    - apply closes_length in E.
      split; [discriminate|]. intros v r0 H; injection H as _ <-; lia.
    - destruct (parse_member_total _ depth IH r) as [Hne Hlt]; [lia|].
      destruct (parse_member (parse_value depth) r) as [[key v] r'| |];
        [|split; [discriminate | intros ? ?; discriminate] | congruence].
      specialize (Hlt _ _ eq_refl).
      destruct (parse_members_total _ depth IH (S (List.length r')) r'
                  [(key, v)]) as [Hne' Hlt']; [lia | lia|].
      split; [exact Hne'|].
      intros v' r'' H; specialize (Hlt' _ _ H); lia. }
  destruct (c =? 91).
  { destruct (closes 93 r) as [r'|] eqn:E.
    - apply closes_length in E.
      split; [discriminate|]. intros v r0 H; injection H as _ <-; lia.
    - destruct (IH r) as [Hne Hlt]; [lia|].
      destruct (parse_value depth r) as [v r'| |];
        [|split; [discriminate | intros ? ?; discriminate] | congruence].
      specialize (Hlt _ _ eq_refl).
      destruct (parse_elements_total _ depth IH (S (List.length r')) r' [v])
        as [Hne' Hlt']; [lia | lia|].
      split; [exact Hne'|].
      intros v' r'' H; specialize (Hlt' _ _ H); lia. }
  destruct (c =? 34).
  { destruct (parse_chars r []) as [[str r']|] eqn:E;
      [|split; [discriminate | intros ? ?; discriminate]].
    apply parse_chars_length in E.
    split; [discriminate|]. intros v r0 H; injection H as _ <-; lia. }
  assert (Hkw : forall w v,
            w <> EmptyString ->
            keyword w v (c :: r) <> Exhausted
            /\ forall v' r', keyword w v (c :: r) = Parsed v' r' ->
                 (List.length r' < List.length s)%nat).
  { intros w v Hw; split.
    - unfold keyword; destruct (starts_with _ _); discriminate.
    - intros v' r' H; apply keyword_length in H; [simpl in H; lia | exact Hw]. }
  destruct (c =? 116); [apply Hkw; discriminate|].
  destruct (c =? 102); [apply Hkw; discriminate|].
  destruct (c =? 110); [apply Hkw; discriminate|].
  destruct (parse_number (c :: r)) as [[lit r']|] eqn:E;
    [|split; [discriminate | intros ? ?; discriminate]].
  apply parse_number_length in E.
  split; [discriminate|].
  intros v r0 H; injection H as _ <-; simpl in E; lia.
Qed.

(** [JSON_parse] answers [None] for a syntax error only. *)
Lemma JSON_parse_total (text : jsstring) :
  parse_value (S (List.length text)) text <> Exhausted.
Proof. apply parse_value_total; lia. Qed.

(* ================================================================= *)
(** * Promises settle once *)

Lemma resolve_settled {T : Type} (v : T) (p : promise T) :
  p <> Pending -> resolve v p = p.
Proof. destruct p; simpl; congruence. Qed.

Lemma reject_settled {T : Type} (e : error) (p : promise T) :
  p <> Pending -> reject e p = p.
Proof. destruct p; simpl; congruence. Qed.

(* ================================================================= *)
(** * getBinancePriceData *)

Lemma isBinanceTickerData_fields (value : json) :
  isBinanceTickerData value = true ->
  get value (js "symbol")
    = Some (JString (BinanceTickerData.symbol (asBinanceTickerData value)))
  /\ get value (js "price")
    = Some (JString (BinanceTickerData.price (asBinanceTickerData value))).
Proof.
  unfold isBinanceTickerData, asBinanceTickerData; simpl.
  rewrite !andb_true_iff; intros [[_ Hs] Hp].
  destruct (get value (js "symbol")) as [[| | | s | |]|];
    try discriminate Hs.
  destruct (get value (js "price")) as [[| | | q | |]|];
    try discriminate Hp.
  split; reflexivity.
Qed.

Lemma translate_cons (productIds : list (jsstring * jsstring))
  (item : BinanceTickerData.t) (json : list BinanceTickerData.t) :
  translate productIds (item :: json)
  = match rename productIds item with
    | Some q => q :: translate productIds json
    | None => translate productIds json
    end.
Proof.
  unfold translate; simpl.
  destruct (rename productIds item); reflexivity.
Qed.

Lemma translate_app (productIds : list (jsstring * jsstring))
  (a b : list BinanceTickerData.t) :
  translate productIds (a ++ b)
  = translate productIds a ++ translate productIds b.
Proof.
  induction a as [|x a IH]; [reflexivity|].
  simpl app; rewrite !translate_cons, IH.
  destruct (rename productIds x); reflexivity.
Qed.

Lemma translate_length (productIds : list (jsstring * jsstring))
  (json : list BinanceTickerData.t) :
  (List.length (translate productIds json) <= List.length json)%nat.
Proof.
  induction json as [|x json IH]; [apply Nat.le_refl|].
  rewrite translate_cons; destruct (rename productIds x); simpl; lia.
Qed.

(** [productIds.find(x => x[0] === symbol)] returns the first pair with
    that source symbol. *)
Lemma find_first (productIds : list (jsstring * jsstring))
  (symbol : jsstring) (pair : jsstring * jsstring) :
  find (fun x => string_eqb (fst x) symbol) productIds = Some pair <->
  exists before after,
    productIds = before ++ pair :: after
    /\ fst pair = symbol
    /\ forall x, In x before -> fst x <> symbol.
Proof.
  induction productIds as [|p l IH]; simpl.
  - split; [discriminate|].
    intros (before & after & H & _); destruct before; discriminate.
  - destruct (string_eqb (fst p) symbol) eqn:E.
    + apply string_eqb_eq in E.
      split.
      * intros H; injection H as <-.
        exists [], l; repeat split; [exact E | intros x []].
      * intros (before & after & H & Hfst & Hbefore).
        destruct before as [|b before]; simpl in H; injection H as -> ->.
        -- reflexivity.
        -- exfalso; apply (Hbefore b); [left; reflexivity | exact E].
    + apply string_eqb_neq in E.
      rewrite IH; split.
      * intros (before & after & -> & Hfst & Hbefore).
        exists (p :: before), after; repeat split; [exact Hfst|].
        intros x [<-|Hx]; [exact E | apply Hbefore; exact Hx].
      * intros (before & after & H & Hfst & Hbefore).
        destruct before as [|b before]; simpl in H; injection H as -> ->.
        -- contradiction.
        -- exists before, after; repeat split; [exact Hfst|].
           intros x Hx; apply Hbefore; right; exact Hx.
Qed.

Lemma find_none (productIds : list (jsstring * jsstring))
  (symbol : jsstring) :
  find (fun x => string_eqb (fst x) symbol) productIds = None <->
  forall target, ~ In (symbol, target) productIds.
Proof.
  split.
  - intros H target Hin.
    apply (find_none _ _ H) in Hin; simpl in Hin.
    rewrite string_eqb_refl in Hin; discriminate.
  - intros H.
    destruct (find _ productIds) as [[s t]|] eqn:E; [|reflexivity].
    apply find_some in E; destruct E as [Hin E]; simpl in E.
    apply string_eqb_eq in E; subst s.
    exfalso; exact (H t Hin).
Qed.

Lemma rename_emits (productIds : list (jsstring * jsstring))
  (item : BinanceTickerData.t) :
  emits productIds item
    (match rename productIds item with Some q => [q] | None => [] end).
Proof.
  unfold rename.
  destruct (find _ productIds) as [[s t]|] eqn:E.
  - pose proof (find_some _ _ E) as [Hin Hs]; simpl in Hs.
    apply string_eqb_eq in Hs; subst s.
    apply emits_match; exact Hin.
  - apply emits_drop; apply find_none; exact E.
Qed.

Lemma translate_emits (productIds : list (jsstring * jsstring))
  (json : list BinanceTickerData.t) :
  exists parts,
    translate productIds json = concat parts
    /\ Forall2 (emits productIds) json parts.
Proof.
  induction json as [|x json (parts & Heq & Hall)].
  - exists []; split; [reflexivity | constructor].
  - exists ((match rename productIds x with Some q => [q] | None => [] end)
            :: parts).
    split.
    + rewrite translate_cons, Heq; simpl.
      destruct (rename productIds x); reflexivity.
    + constructor; [apply rename_emits | exact Hall].
Qed.

Lemma binance_step_settled (productIds : list (jsstring * jsstring))
  (st st' : fetcher) (ev : http_event) :
  binance_step productIds st ev = Normal st' ->
  http_promise st <> Pending ->
  http_promise st' = http_promise st.
Proof.
  intros Hstep Hp.
  destruct ev; simpl in Hstep.
  - injection Hstep as <-; reflexivity.
  - destruct (body st); injection Hstep as <-; reflexivity.
  - destruct (body st) as [b|]; [|injection Hstep as <-; reflexivity].
    unfold on_end in Hstep.
    destruct (JSON_parse b) as [[| | | | items |]|]; try discriminate;
      try (destruct (forallb isBinanceTickerData items));
      injection Hstep as <-; simpl;
      auto using resolve_settled, reject_settled.
  - discriminate.
Qed.

Lemma binance_run_settled (productIds : list (jsstring * jsstring))
  (evs : list http_event) (st st' : fetcher) :
  binance_run productIds st evs = Normal st' ->
  http_promise st <> Pending ->
  http_promise st' = http_promise st.
Proof.
  revert st; induction evs as [|ev evs IH]; simpl; intros st Hrun Hp.
  - injection Hrun as <-; reflexivity.
  - destruct (binance_step productIds st ev) as [st1|] eqn:E;
      [|discriminate].
    pose proof (binance_step_settled _ _ _ _ E Hp) as H1.
    rewrite <- H1; apply IH; [exact Hrun | congruence].
Qed.

(** The ['data'] listener appends every chunk to [body]. *)
Lemma binance_run_data (productIds : list (jsstring * jsstring))
  (chunks : list jsstring) (b : jsstring)
  (p : promise (list BinanceTickerData.t)) (l : list http_action)
  (evs : list http_event) :
  binance_run productIds (Fetcher (Some b) p l) (map Data chunks ++ evs)
  = binance_run productIds (Fetcher (Some (b ++ concat chunks)) p l) evs.
Proof.
  revert b; induction chunks as [|c chunks IH]; intros b; simpl.
  - rewrite app_nil_r; reflexivity.
  - rewrite IH, <- app_assoc; reflexivity.
Qed.

Lemma binance_run_response (productIds : list (jsstring * jsstring))
  (chunks : list jsstring) :
  binance_run productIds (getBinancePriceData productIds)
    (Response :: map Data chunks ++ [End])
  = on_end productIds
      (Fetcher (Some (concat chunks)) Pending
         [HttpGet (binanceApiURL ++ js "/api/v3/ticker/price")])
      (concat chunks).
Proof.
  unfold getBinancePriceData.
  cbn [binance_run binance_step http_promise http_log].
  rewrite binance_run_data; cbn [app binance_run binance_step body].
  destruct (on_end _ _ _); reflexivity.
Qed.

(** C4. For every validated snapshot response (an array whose elements
    all pass the guard) and every remap, [getBinancePriceData] resolves;
    each record whose symbol is the source symbol of some pair of the
    remap gives one quote, with that pair's target symbol and the price
    string unchanged, each other record gives nothing, the quotes come in
    the order of the records, and the empty remap gives the empty list. *)
Theorem C4_snapshot_records_translated
  (remap : list (jsstring * jsstring)) (chunks : list jsstring)
  (items : list json) :
  JSON_parse (concat chunks) = Some (JArray items) ->
  forallb isBinanceTickerData items = true ->
  exists st quotes parts,
    binance_run remap (getBinancePriceData remap)
      (Response :: map Data chunks ++ [End]) = Normal st
    /\ http_promise st = Fulfilled quotes
    /\ quotes = concat parts
    /\ Forall2 (emits remap) (map asBinanceTickerData items) parts
    /\ Forall (fun item =>
         get item (js "symbol")
           = Some (JString
                     (BinanceTickerData.symbol (asBinanceTickerData item)))
         /\ get item (js "price")
           = Some (JString
                     (BinanceTickerData.price (asBinanceTickerData item))))
        items
    /\ (remap = [] -> quotes = []).
Proof.
  intros Hparse Hguard.
  destruct (translate_emits remap (map asBinanceTickerData items))
    as (parts & Heq & Hall).
  rewrite binance_run_response.
  unfold on_end; rewrite Hparse, Hguard.
  eexists; exists (translate remap (map asBinanceTickerData items)), parts.
  split; [reflexivity|].
  split; [reflexivity|].
  split; [exact Heq|].
  split; [exact Hall|].
  split.
  - rewrite forallb_forall in Hguard.
    apply Forall_forall; intros item Hin.
    apply isBinanceTickerData_fields, Hguard, Hin.
  - intros ->.
    clear; induction items as [|x items IH]; [reflexivity|].
    simpl map; rewrite translate_cons; exact IH.
Qed.

Lemma C4_witness :
  exists st,
    binance_run binanceProducts (getBinancePriceData binanceProducts)
      [Response;
       Data (text "[{'symbol':'ADABTC','price':'1.23'},");
       Data (text "{'symbol':'XYZ','price':'9.99'},");
       Data (text "{'symbol':'DOTBTC','price':'4.56'}]");
       End] = Normal st
    /\ http_promise st
       = Fulfilled [BinanceTickerData.make (js "ADA-BTC") (js "1.23");
                    BinanceTickerData.make (js "DOT-BTC") (js "4.56")].
Proof.
  destruct (C4_snapshot_records_translated binanceProducts
              [text "[{'symbol':'ADABTC','price':'1.23'},";
               text "{'symbol':'XYZ','price':'9.99'},";
               text "{'symbol':'DOTBTC','price':'4.56'}]"]
              _ eq_refl eq_refl)
    as (st & quotes & parts & Hrun & Hp & _).
  exists st; split; [exact Hrun|].
  vm_compute in Hrun; injection Hrun as <-; reflexivity.
Defined.

(** C5. For every parsed response body of the wrong shape (not an array,
    or an array with an element that fails the guard),
    [getBinancePriceData] rejects with the error 'Invalid JSON response
    data' and never resolves afterwards; a JSON object is such a body. *)
Theorem C5_wrong_shape_rejected
  (remap : list (jsstring * jsstring)) (chunks : list jsstring)
  (json : json) :
  JSON_parse (concat chunks) = Some json ->
  (forall items, json <> JArray items)
  \/ (exists items item,
        json = JArray items /\ In item items
        /\ isBinanceTickerData item = false) ->
  exists st,
    binance_run remap (getBinancePriceData remap)
      (Response :: map Data chunks ++ [End]) = Normal st
    /\ http_promise st = Rejected invalid_response
    /\ forall evs st',
         binance_run remap st evs = Normal st' ->
         http_promise st' = Rejected invalid_response.
Proof.
  intros Hparse Hshape.
  rewrite binance_run_response.
  unfold on_end; rewrite Hparse.
  assert (Hrej : exists st,
    match json with
    | JArray items =>
        if forallb isBinanceTickerData items
        then Normal (Fetcher (Some (concat chunks))
               (resolve (translate remap (map asBinanceTickerData items))
                        Pending)
               [HttpGet (binanceApiURL ++ js "/api/v3/ticker/price")])
        else Normal (Fetcher (Some (concat chunks))
               (reject invalid_response Pending)
               [HttpGet (binanceApiURL ++ js "/api/v3/ticker/price")])
    | _ => Normal (Fetcher (Some (concat chunks))
               (reject invalid_response Pending)
               [HttpGet (binanceApiURL ++ js "/api/v3/ticker/price")])
    end = Normal st /\ http_promise st = Rejected invalid_response).
  { destruct Hshape as [Hnot | (items & item & -> & Hin & Hbad)].
    - destruct json; try (eexists; split; reflexivity).
      exfalso; eapply Hnot; reflexivity.
    - assert (forallb isBinanceTickerData items = false) as ->.
      { destruct (forallb isBinanceTickerData items) eqn:E; [|reflexivity].
        rewrite forallb_forall in E; rewrite (E _ Hin) in Hbad.
        discriminate. }
      eexists; split; reflexivity. }
  destruct Hrej as (st & Hst & Hp).
  exists st; split; [exact Hst|]; split; [exact Hp|].
  intros evs st' Hrun.
  rewrite <- Hp; eapply binance_run_settled; [exact Hrun|].
  rewrite Hp; discriminate.
Qed.

Lemma C5_witness :
  exists st,
    binance_run binanceProducts (getBinancePriceData binanceProducts)
      [Response; Data (text "{'code':-1003,"); Data (text "'msg':'busy'}");
       End] = Normal st
    /\ http_promise st = Rejected invalid_response.
Proof.
  destruct (C5_wrong_shape_rejected binanceProducts
              [text "{'code':-1003,"; text "'msg':'busy'}"] _ eq_refl)
    as (st & Hrun & Hp & _).
  - left; intros items; discriminate.
  - exists st; split; assumption.
Defined.

(** The translation takes the first pair with a record's symbol, and
    gives at most one quote for a record. *)
Lemma translate_first_pair
  (before after : list (jsstring * jsstring)) (source target : jsstring)
  (json : list BinanceTickerData.t) :
  (forall x, In x before -> fst x <> source) ->
  let remap := before ++ (source, target) :: after in
  translate remap json = flat_map (fun record => translate remap [record]) json
  /\ (forall record,
        BinanceTickerData.symbol record = source ->
        translate remap [record]
        = [BinanceTickerData.make target (BinanceTickerData.price record)])
  /\ (forall record, (List.length (translate remap [record]) <= 1)%nat)
  /\ (List.length (translate remap json) <= List.length json)%nat.
Proof.
  intros Hbefore remap.
  split; [|split; [|split]].
  - induction json as [|x json IH]; [reflexivity|].
    change (x :: json) with ([x] ++ json).
    rewrite translate_app, IH; reflexivity.
  - intros record Hsym.
    rewrite translate_cons.
    assert (Hfind :
      find (fun x => string_eqb (fst x) (BinanceTickerData.symbol record))
           remap = Some (source, target)).
    { apply find_first; exists before, after.
      rewrite Hsym; repeat split; assumption. }
    unfold rename; rewrite Hfind; reflexivity.
  - intros record; apply (translate_length remap [record]).
  - apply translate_length.
Qed.

(** C10. When the remap has several pairs with the same source symbol,
    [getBinancePriceData] resolves with every record of that symbol
    translated by the first of them (the earliest pair wins), and with at
    most one quote for each record of the response: the result is the
    concatenation, in the order of the records, of one part per record,
    a part has at most one quote, and the part of a record with the
    symbol is the quote with the first pair's target and the record's
    price. *)
Theorem C10_first_pair_wins
  (before after : list (jsstring * jsstring)) (source target : jsstring)
  (chunks : list jsstring) (items : list json) :
  (forall x, In x before -> fst x <> source) ->
  JSON_parse (concat chunks) = Some (JArray items) ->
  forallb isBinanceTickerData items = true ->
  let remap := before ++ (source, target) :: after in
  exists st quotes parts,
    binance_run remap (getBinancePriceData remap)
      (Response :: map Data chunks ++ [End]) = Normal st
    /\ http_promise st = Fulfilled quotes
    /\ quotes = concat parts
    /\ (List.length quotes <= List.length items)%nat
    /\ Forall2
         (fun item part =>
            (List.length part <= 1)%nat
            /\ (get item (js "symbol") = Some (JString source) ->
                part = [BinanceTickerData.make target
                          (BinanceTickerData.price
                             (asBinanceTickerData item))]))
         items parts.
Proof.
  intros Hbefore Hparse Hguard remap.
  destruct (translate_first_pair before after source target
              (map asBinanceTickerData items) Hbefore)
    as (Hflat & Hfirst & Hone & Hlen).
  fold remap in Hflat, Hfirst, Hone, Hlen.
  rewrite binance_run_response.
  unfold on_end; rewrite Hparse, Hguard.
  eexists; exists (translate remap (map asBinanceTickerData items)).
  exists (map (fun item => translate remap [asBinanceTickerData item]) items).
  split; [reflexivity|].
  split; [reflexivity|].
  split; [rewrite Hflat, flat_map_concat_map, map_map; reflexivity|].
  split; [rewrite length_map in Hlen; exact Hlen|].
  rewrite forallb_forall in Hguard.
  clear Hflat Hlen Hparse.
  induction items as [|item items IH]; simpl; constructor.
  - split; [apply Hone|].
    intros Hsym; apply Hfirst.
    unfold asBinanceTickerData; cbn [BinanceTickerData.symbol].
    rewrite Hsym; reflexivity.
  - apply IH; intros x Hx; apply Hguard; right; exact Hx.
Qed.

Lemma C10_witness :
  exists st,
    binance_run
      [(js "ADABTC", js "ADA-BTC"); (js "DOTBTC", js "DOT-BTC");
       (js "ADABTC", js "CARDANO")]
      (getBinancePriceData
         [(js "ADABTC", js "ADA-BTC"); (js "DOTBTC", js "DOT-BTC");
          (js "ADABTC", js "CARDANO")])
      [Response; Data (text "[{'symbol':'ADABTC','price':'1.23'},");
       Data (text "{'symbol':'XYZ','price':'9.99'}]"); End] = Normal st
    /\ http_promise st
       = Fulfilled [BinanceTickerData.make (js "ADA-BTC") (js "1.23")].
Proof.
  destruct (C10_first_pair_wins []
              [(js "DOTBTC", js "DOT-BTC"); (js "ADABTC", js "CARDANO")]
              (js "ADABTC") (js "ADA-BTC")
              [text "[{'symbol':'ADABTC','price':'1.23'},";
               text "{'symbol':'XYZ','price':'9.99'}]"] _
              (fun x (H : In x []) => match H with end) eq_refl eq_refl)
    as (st & quotes & parts & Hrun & Hp & _).
  exists st; split; [exact Hrun|].
  vm_compute in Hrun; injection Hrun as <-; reflexivity.
Defined.

(* ================================================================= *)
(** * printExchangeRates *)

Lemma string_ltb_lex (a b : jsstring) : string_ltb a b = true <-> lex_lt a b.
Proof.
  split.
  - revert b; induction a as [|x a IH]; intros [|y b]; simpl;
      try discriminate.
    + intros _; constructor.
    + destruct (N.ltb_spec x y) as [Hxy|Hxy];
        [intros _; constructor; exact Hxy|].
      destruct (N.ltb_spec y x) as [Hyx|Hyx]; [discriminate|].
      assert (x = y) as -> by lia.
      intros Hab; apply lex_rest, IH, Hab.
  - induction 1 as [y b | x y a b Hxy | x a b Hab IH]; simpl.
    + reflexivity.
    + apply N.ltb_lt in Hxy; rewrite Hxy; reflexivity.
    + rewrite N.ltb_irrefl; exact IH.
Qed.

Lemma string_leb_lex (a b : jsstring) : string_leb a b = true <-> lex_le a b.
Proof.
  unfold string_leb, lex_le; rewrite negb_true_iff, <- string_ltb_lex.
  split.
  - intros Hba.
    destruct (string_ltb a b) eqn:Hab; [left; reflexivity|].
    right; apply string_ltb_connex; assumption.
  - intros [Hab | ->].
    + apply string_ltb_asym; exact Hab.
    + apply string_ltb_irrefl.
Qed.

Lemma sorted_lex (l : list jsstring) :
  Sorted (le string_leb) l <-> Sorted lex_le l.
Proof.
  assert (Hhd : forall x l, HdRel (le string_leb) x l <-> HdRel lex_le x l).
  { intros x [|y l']; split; intros Hrel;
      inversion Hrel as [|? ? Hxy]; subst; constructor;
      apply string_leb_lex; exact Hxy. }
  induction l as [|x l IH]; [split; constructor|].
  split; intros Hs; inversion Hs as [|? ? Hl Hh]; subst; constructor;
    try (apply IH; exact Hl); apply Hhd; exact Hh.
Qed.

Lemma format_coinbase (q : CoinbaseTickerData.t) :
  coinbase_line q = format_row (tag_coinbase q).
Proof. reflexivity. Qed.

Lemma format_binance (q : BinanceTickerData.t) :
  binance_line q = format_row (tag_binance q).
Proof. reflexivity. Qed.

(** The sorted array is the sorted permutation of the formatted rows. *)
Lemma lines_sorted_rows (coinbaseResults : list CoinbaseTickerData.t)
  (binanceResults : list BinanceTickerData.t) :
  let rows := map format_row (map tag_coinbase coinbaseResults
                              ++ map tag_binance binanceResults) in
  Permutation (lines coinbaseResults binanceResults) rows
  /\ Sorted lex_le (lines coinbaseResults binanceResults)
  /\ forall l, Permutation l rows -> Sorted lex_le l ->
               l = lines coinbaseResults binanceResults.
Proof.
  intros rows.
  assert (HP : Permutation (lines coinbaseResults binanceResults) rows).
  { unfold lines, Array_sort, rows.
    rewrite sort_perm, map_app, !map_map.
    rewrite Permutation_app_comm.
    apply Permutation_app; apply Permutation_refl'; apply map_ext;
      intros q; reflexivity. }
  assert (HS : Sorted (le string_leb) (lines coinbaseResults binanceResults))
    by (apply sort_sorted, string_leb_total).
  split; [exact HP|]; split; [apply sorted_lex; exact HS|].
  intros l Hl Hsorted.
  apply (sorted_perm_unique string_leb string_leb_trans string_leb_antisym).
  - apply sorted_lex; exact Hsorted.
  - exact HS.
  - rewrite Hl, HP; reflexivity.
Qed.

Lemma Promise_all_rejected {A B : Type} (a : promise A) (b : promise B)
  (e : error) :
  Promise_all a b = Rejected e -> a = Rejected e \/ b = Rejected e.
Proof.
  destruct a, b; simpl; intros H; try discriminate;
    injection H as <-; auto.
Qed.

Lemma Promise_all_fulfilled {A B : Type} (a : promise A) (b : promise B)
  (x : A) (y : B) :
  Promise_all a b = Fulfilled (x, y) -> a = Fulfilled x /\ b = Fulfilled y.
Proof.
  destruct a, b; simpl; intros H; try discriminate.
  injection H as <- <-; auto.
Qed.

Lemma settle_consistent (p : process) :
  match aggregate p with
  | Pending => stdout p = [] /\ console_error p = []
  | _ => consistent p
  end ->
  consistent (settle p).
Proof.
  unfold settle, consistent.
  destruct (aggregate p) eqn:Hagg; [|rewrite Hagg; auto..].
  intros [Hout Herr].
  destruct (Promise_all _ _) as [|[c b]|e] eqn:Hall; simpl.
  - rewrite Hagg; auto.
  - apply Promise_all_fulfilled in Hall; destruct Hall as [Hc Hb].
    exists c, b; rewrite Hout, Herr; auto.
  - apply Promise_all_rejected in Hall.
    rewrite Hout, Herr; auto.
Qed.

Lemma on_message_settled (productIds : list jsstring) (st st' : collector)
  (m : message) :
  on_message productIds st m = Normal st' ->
  connected st' = connected st
  /\ (ws_promise st <> Pending -> ws_promise st' = ws_promise st).
Proof.
  unfold on_message.
  destruct m as [text|bytes]; [|intros H; injection H as <-; auto].
  destruct (JSON_parse text) as [data|]; [|discriminate].
  destruct (asCoinbaseTickerData data) as [d|];
    [|intros H; injection H as <-; auto].
  destruct (Nat.eqb _ _); intros H; injection H as <-; simpl;
    auto using resolve_settled.
Qed.

Lemma coinbase_step_settled (productIds : list jsstring)
  (st st' : collector) (ev : ws_event) :
  coinbase_step productIds st ev = Normal st' ->
  ws_promise st <> Pending ->
  ws_promise st' = ws_promise st.
Proof.
  intros Hstep Hp.
  destruct ev as [| e | m | e]; simpl in Hstep.
  - injection Hstep as <-; reflexivity.
  - injection Hstep as <-; reflexivity.
  - destruct (connected st); [|injection Hstep as <-; reflexivity].
    apply on_message_settled in Hstep; apply Hstep; exact Hp.
  - destruct (connected st); injection Hstep as <-; simpl;
      auto using reject_settled.
Qed.

Lemma coinbase_run_settled (productIds : list jsstring)
  (evs : list ws_event) (st st' : collector) :
  coinbase_run productIds st evs = Normal st' ->
  ws_promise st <> Pending ->
  ws_promise st' = ws_promise st.
Proof.
  revert st; induction evs as [|ev evs IH]; simpl; intros st Hrun Hp.
  - injection Hrun as <-; reflexivity.
  - destruct (coinbase_step productIds st ev) as [st1|] eqn:E;
      [|discriminate].
    pose proof (coinbase_step_settled _ _ _ _ E Hp) as H1.
    rewrite <- H1; apply IH; [exact Hrun | congruence].
Qed.

(** A settled source keeps [consistent] true whatever it does next. *)
Lemma consistent_after (p : process) (c : collector) (b : fetcher) :
  consistent p ->
  (ws_promise (coinbase p) <> Pending ->
   ws_promise c = ws_promise (coinbase p)) ->
  (http_promise (binance p) <> Pending ->
   http_promise b = http_promise (binance p)) ->
  (c = coinbase p \/ b = binance p) ->
  consistent
    (settle (Process c b (aggregate p) (stdout p) (console_error p) None)).
Proof.
  intros Hcons Hc Hb Hone.
  apply settle_consistent; simpl.
  unfold consistent in Hcons.
  destruct (aggregate p) as [|[]|e] eqn:Hagg.
  - destruct Hcons as (? & ? & _); auto.
  - unfold consistent; simpl.
    destruct Hcons as (cr & br & Hcr & Hbr & Hout & Herr).
    exists cr, br.
    rewrite Hc, Hb by (rewrite ?Hcr, ?Hbr; discriminate); auto.
  - unfold consistent; simpl.
    destruct Hcons as (Hout & Herr & [Hr | Hr]).
    + rewrite Hc by (rewrite Hr; discriminate); auto.
    + rewrite Hb by (rewrite Hr; discriminate); auto.
Qed.

Lemma step_consistent (p : process) (ev : event) :
  consistent p -> consistent (step p ev).
Proof.
  intros Hcons; unfold step.
  destruct (uncaught p); [exact Hcons|].
  destruct ev as [e | e].
  - destruct (coinbase_step coinbaseProducts (coinbase p) e) as [c|err]
      eqn:E; [|exact Hcons].
    apply consistent_after; auto.
    intros Hp; eapply coinbase_step_settled; eassumption.
  - destruct (binance_step binanceProducts (binance p) e) as [b|err]
      eqn:E; [|exact Hcons].
    apply consistent_after; auto.
    intros Hp; eapply binance_step_settled; eassumption.
Qed.

Lemma run_consistent (evs : list event) (p : process) :
  consistent p -> consistent (run p evs).
Proof.
  revert p; induction evs as [|ev evs IH]; intros p Hcons; [exact Hcons|].
  apply IH, step_consistent, Hcons.
Qed.

Lemma printExchangeRates_consistent (evs : list event) :
  consistent (run printExchangeRates evs).
Proof. apply run_consistent; repeat split. Qed.

(** C7. For every pair of successful results, the continuation of
    [printExchangeRates] tags the streaming quotes with 'Coinbase' and the
    snapshot quotes with 'Binance', formats every row as
    [exchangeName,symbol,price] followed by a line terminator, and writes
    the header line [Exchange,Market,Price] and then the rows in
    lexicographic order of the whole row string; that order is the only
    sorted arrangement of the rows. *)
Theorem C7_header_then_sorted_rows (p : process)
  (coinbaseResults : list CoinbaseTickerData.t)
  (binanceResults : list BinanceTickerData.t) :
  aggregate p = Pending ->
  ws_promise (coinbase p) = Fulfilled coinbaseResults ->
  http_promise (binance p) = Fulfilled binanceResults ->
  let rows := map format_row (map tag_coinbase coinbaseResults
                              ++ map tag_binance binanceResults) in
  exists sorted,
    stdout (settle p)
    = stdout p ++ (js "Exchange,Market,Price" ++ newline) :: sorted
    /\ aggregate (settle p) = Fulfilled tt
    /\ Permutation sorted rows
    /\ Sorted lex_le sorted
    /\ forall l, Permutation l rows -> Sorted lex_le l -> l = sorted.
Proof.
  intros Hagg Hc Hb rows.
  exists (lines coinbaseResults binanceResults).
  unfold settle; rewrite Hagg, Hc, Hb; simpl.
  split; [reflexivity|]; split; [reflexivity|].
  apply lines_sorted_rows.
Qed.

Lemma C7_witness :
  stdout
    (settle
       (Process
          (Collector empty_object
             (Fulfilled [CoinbaseTickerData.make (js "BTC-GBP")
                                                 (js "50000.00")])
             true [])
          (Fetcher None
             (Fulfilled [BinanceTickerData.make (js "ADA-BTC") (js "0.55")])
             [])
          Pending [] [] None))
  = [js "Exchange,Market,Price" ++ newline;
     js "Binance,ADA-BTC,0.55" ++ newline;
     js "Coinbase,BTC-GBP,50000.00" ++ newline].
Proof.
  destruct (C7_header_then_sorted_rows
              (Process
                 (Collector empty_object
                    (Fulfilled [CoinbaseTickerData.make (js "BTC-GBP")
                                                        (js "50000.00")])
                    true [])
                 (Fetcher None
                    (Fulfilled [BinanceTickerData.make (js "ADA-BTC")
                                                       (js "0.55")])
                    [])
                 Pending [] [] None)
              _ _ eq_refl eq_refl eq_refl)
    as (sorted & Hout & _).
  vm_compute in Hout |- *; reflexivity.
Defined.

(** A whole run of the program on the products of the file: the two
    sources answer in turns, and the output is written when the last
    Coinbase product has reported. *)
Example printExchangeRates_prints :
  let p := run printExchangeRates
             [Ws Connect;
              Http Response;
              Ws (Message (ticker_frame "BTC-GBP" "50000.00"));
              Http (Data (text "[{'symbol':'ETHBTC','price':'0.07'},"));
              Ws (Message (ticker_frame "XTZ-GBP" "2.75"));
              Http (Data (text "{'symbol':'DOTBTC','price':'4.56'},"));
              Http (Data (text "{'symbol':'ADABTC','price':'1.23'}]"));
              Http End;
              Ws (Message (ticker_frame "XTZ-GBP" "2.80"));
              Ws (Message (ticker_frame "LINK-GBP" "19.10"))] in
  aggregate p = Fulfilled tt
  /\ stdout p
     = [js "Exchange,Market,Price" ++ newline;
        js "Binance,ADA-BTC,1.23" ++ newline;
        js "Binance,DOT-BTC,4.56" ++ newline;
        js "Coinbase,BTC-GBP,50000.00" ++ newline;
        js "Coinbase,LINK-GBP,19.10" ++ newline;
        js "Coinbase,XTZ-GBP,2.80" ++ newline]
  /\ console_error p = []
  /\ exit_status p = 0%Z.
Proof. vm_compute; repeat split. Qed.

(** C8. In every run in which the promise of one of the two sources has
    been rejected, the promise of [printExchangeRates()] is rejected with
    the error of a rejected source, and nothing has been written to the
    output: neither the header nor a row. *)
Theorem C8_rejection_writes_nothing (evs : list event) :
  let p := run printExchangeRates evs in
  (exists e, ws_promise (coinbase p) = Rejected e)
  \/ (exists e, http_promise (binance p) = Rejected e) ->
  exists e,
    aggregate p = Rejected e
    /\ (ws_promise (coinbase p) = Rejected e
        \/ http_promise (binance p) = Rejected e)
    /\ stdout p = [].
Proof.
  intros p Hrej.
  pose proof (printExchangeRates_consistent evs) as Hcons.
  fold p in Hcons; unfold consistent in Hcons.
  destruct (aggregate p) as [|[]|e].
  - destruct Hcons as (_ & _ & Hall).
    destruct Hrej as [[e He] | [e He]]; rewrite He in Hall;
      destruct (ws_promise (coinbase p)); discriminate.
  - destruct Hcons as (c & b & Hc & Hb & _).
    destruct Hrej as [[e He] | [e He]]; congruence.
  - destruct Hcons as (Hout & _ & Hsrc).
    exists e; auto.
Qed.

Lemma C8_witness :
  let p := run printExchangeRates
             [Ws Connect; Http Response; Http (Data (js "{}")); Http End] in
  aggregate p = Rejected invalid_response /\ stdout p = [].
Proof.
  intros p.
  destruct (C8_rejection_writes_nothing
              [Ws Connect; Http Response; Http (Data (js "{}")); Http End])
    as (e & Hagg & _ & Hout).
  - right; exists invalid_response; reflexivity.
  - split; [|exact Hout].
    vm_compute in Hagg; injection Hagg as <-; reflexivity.
Defined.

(** C9, as the code has it.  An error that rejects the promise of
    [printExchangeRates()] is given to [console.error], once, and nothing
    is written; on success the output has been written in full.  The
    exit status is not touched in either case: as long as no exception
    has escaped a listener it is zero. *)
Theorem C9_error_logged_status_zero (evs : list event) :
  let p := run printExchangeRates evs in
  (forall e, aggregate p = Rejected e ->
             console_error p = [e] /\ stdout p = [])
  /\ (aggregate p = Fulfilled tt ->
      exists coinbaseResults binanceResults,
        ws_promise (coinbase p) = Fulfilled coinbaseResults
        /\ http_promise (binance p) = Fulfilled binanceResults
        /\ stdout p = print coinbaseResults binanceResults
        /\ console_error p = [])
  /\ (uncaught p = None -> exit_status p = 0%Z).
Proof.
  intros p.
  pose proof (printExchangeRates_consistent evs) as Hcons.
  fold p in Hcons; unfold consistent in Hcons.
  split; [|split].
  - intros e He; rewrite He in Hcons; tauto.
  - intros Hf; rewrite Hf in Hcons; exact Hcons.
  - unfold exit_status; intros ->; reflexivity.
Qed.

Lemma C9_witness :
  let p := run printExchangeRates
             [Http Response; Http (Data (js "{}")); Http End] in
  console_error p = [invalid_response] /\ stdout p = []
  /\ exit_status p = 0%Z.
Proof.
  intros p.
  destruct (C9_error_logged_status_zero
              [Http Response; Http (Data (js "{}")); Http End])
    as (Hrej & _ & Hexit).
  destruct (Hrej invalid_response eq_refl) as [Herr Hout].
  split; [exact Herr | split; [exact Hout | apply Hexit; reflexivity]].
Defined.

(** The claim C9 asks for a non-zero exit status after an error: here the
    snapshot source answers with a JSON object, the aggregation rejects,
    the error is logged, and the status is zero. *)
Lemma C9_counterexample :
  let p := run printExchangeRates
             [Http Response; Http (Data (js "{}")); Http End] in
  aggregate p = Rejected invalid_response
  /\ console_error p = [invalid_response]
  /\ uncaught p = None
  /\ ~ (exit_status p <> 0%Z).
Proof.
  vm_compute; repeat split; intros H; apply H; reflexivity.
Qed.

(** C6, at the two inputs the claim names.  An ['error'] event on the
    request has no listener and is thrown by the emitter; a body that is
    not JSON makes [JSON.parse] throw inside the ['end'] listener.  In
    both runs the exception reaches the event loop and the promise of
    the call stays pending: it is not rejected. *)
Lemma C6_errors_escape_the_promise :
  (let p := run printExchangeRates
              [Http (RequestError (Failure (js "ECONNREFUSED")))] in
   http_promise (binance p) = Pending
   /\ aggregate p = Pending
   /\ console_error p = []
   /\ uncaught p = Some (Failure (js "ECONNREFUSED")))
  /\ (let p := run printExchangeRates
                 [Http Response; Http (Data (js "<html>")); Http End] in
      JSON_parse (js "<html>") = None
      /\ http_promise (binance p) = Pending
      /\ aggregate p = Pending
      /\ console_error p = []
      /\ uncaught p = Some SyntaxError).
Proof. vm_compute; repeat split. Qed.

(* ================================================================= *)
(** * Objects as dictionaries *)

Section Dictionary.

Context {V : Type}.
Implicit Types (props : list (jsstring * V)) (key : jsstring) (v : V).

Lemma lookup_define key key' v props :
  lookup key' (define key v props)
  = if string_eqb key key' then Some v else lookup key' props.
Proof.
  induction props as [|[k w] props IH]; simpl; [reflexivity|].
  destruct (string_eqb k key) eqn:Hk; simpl.
  - apply string_eqb_eq in Hk; subst k.
    destruct (string_eqb key key'); reflexivity.
  - rewrite IH.
    destruct (string_eqb k key') eqn:Hk'; [|reflexivity].
    apply string_eqb_eq in Hk'; subst k.
    rewrite string_eqb_neq in Hk.
    destruct (string_eqb key key') eqn:E; [|reflexivity].
    apply string_eqb_eq in E; congruence.
Qed.

Lemma lookup_none key props :
  lookup key props = None <-> ~ In key (map fst props).
Proof.
  induction props as [|[k w] props IH]; simpl; [tauto|].
  destruct (string_eqb k key) eqn:Hk.
  - apply string_eqb_eq in Hk; split; [discriminate | tauto].
  - apply string_eqb_neq in Hk; rewrite IH; tauto.
Qed.

Lemma lookup_in key v props :
  lookup key props = Some v -> In (key, v) props.
Proof.
  induction props as [|[k w] props IH]; simpl; [discriminate|].
  destruct (string_eqb k key) eqn:Hk.
  - apply string_eqb_eq in Hk; intros H; injection H as <-; subst.
    left; reflexivity.
  - intros H; right; apply IH, H.
Qed.

Lemma in_lookup key v props :
  NoDup (map fst props) -> In (key, v) props -> lookup key props = Some v.
Proof.
  induction props as [|[k w] props IH]; simpl; [tauto|].
  intros Hnd [Heq | Hin].
  - injection Heq as -> ->; rewrite string_eqb_refl; reflexivity.
  - inversion Hnd as [|? ? Hk Hnd']; subst.
    destruct (string_eqb k key) eqn:E; [|apply IH; assumption].
    apply string_eqb_eq in E; subst k.
    exfalso; apply Hk; apply (in_map fst) in Hin; exact Hin.
Qed.

Lemma define_keys key v props :
  map fst (define key v props)
  = match lookup key props with
    | Some _ => map fst props
    | None => map fst props ++ [key]
    end.
Proof.
  induction props as [|[k w] props IH]; simpl; [reflexivity|].
  destruct (string_eqb k key) eqn:Hk; simpl; [reflexivity|].
  rewrite IH; destruct (lookup key props); reflexivity.
Qed.

Lemma define_nodup key v props :
  NoDup (map fst props) -> NoDup (map fst (define key v props)).
Proof.
  intros Hnd; rewrite define_keys.
  destruct (lookup key props) eqn:E; [exact Hnd|].
  apply lookup_none in E.
  apply (Permutation_NoDup (Permutation_cons_append _ key)).
  constructor; assumption.
Qed.

Lemma filter_split (f : jsstring * V -> bool) props :
  Permutation (filter f props ++ filter (fun e => negb (f e)) props) props.
Proof.
  induction props as [|e props IH]; simpl; [reflexivity|].
  destruct (f e); simpl.
  - constructor; exact IH.
  - rewrite <- Permutation_middle; constructor; exact IH.
Qed.

Lemma Object_entries_perm (o : object V) :
  Permutation (Object_entries o) (own o).
Proof.
  unfold Object_entries.
  rewrite sort_perm; apply filter_split.
Qed.

Lemma Object_keys_length (o : object V) :
  List.length (Object_keys o) = List.length (own o).
Proof.
  unfold Object_keys; rewrite length_map.
  apply Permutation_length, Object_entries_perm.
Qed.

Lemma Object_values_length (o : object V) :
  List.length (Object_values o) = List.length (own o).
Proof.
  unfold Object_values; rewrite length_map.
  apply Permutation_length, Object_entries_perm.
Qed.

Lemma assign_own (o : object V) key v (f : bool) :
  key <> js "__proto__" ->
  own (assign o key v f) = define key v (own o).
Proof.
  intros Hkey; unfold assign.
  apply string_eqb_neq in Hkey; rewrite Hkey; reflexivity.
Qed.

End Dictionary.

(* ================================================================= *)
(** * getCoinbasePriceData *)

Lemma isCoinbaseTickerData_fields (value : json) :
  isCoinbaseTickerData value = true ->
  exists d,
    asCoinbaseTickerData value = Some d
    /\ get value (js "type") = Some (JString (js "ticker"))
    /\ get value (js "product_id")
       = Some (JString (CoinbaseTickerData.product_id d))
    /\ get value (js "price") = Some (JString (CoinbaseTickerData.price d)).
Proof.
  intros Hguard; unfold asCoinbaseTickerData; rewrite Hguard.
  unfold isCoinbaseTickerData in Hguard.
  rewrite !andb_true_iff in Hguard.
  destruct Hguard as [[[_ Ht] Hp] Hq].
  eexists; split; [reflexivity|]; simpl.
  destruct (get value (js "type")) as [[| | | t | |]|];
    try discriminate Ht.
  destruct (get value (js "product_id")) as [[| | | s | |]|];
    try discriminate Hp.
  destruct (get value (js "price")) as [[| | | q | |]|];
    try discriminate Hq.
  simpl in Ht; apply string_eqb_eq in Ht; subst t.
  repeat split.
Qed.

Lemma asCoinbaseTickerData_none (value : json) :
  asCoinbaseTickerData value = None <-> isCoinbaseTickerData value = false.
Proof.
  unfold asCoinbaseTickerData.
  destruct (isCoinbaseTickerData value); split; congruence.
Qed.

Lemma on_message_ignored (productIds : list jsstring) (st : collector)
  (m : message) :
  readable m -> ticker_of m = None -> on_message productIds st m = Normal st.
Proof.
  destruct m as [text|bytes]; simpl; [|reflexivity].
  destruct (JSON_parse text) as [data|]; [|congruence].
  intros _ ->; reflexivity.
Qed.

Lemma on_message_ticker (productIds : list jsstring) (st : collector)
  (m : message) (d : CoinbaseTickerData.t) :
  ticker_of m = Some d ->
  on_message productIds st m
  = let tickerData :=
      assign (tickerData st) (CoinbaseTickerData.product_id d) d
             (shadows m) in
    if Nat.eqb (List.length (Object_keys tickerData))
               (List.length productIds)
    then Normal (Collector tickerData
                   (resolve (Object_values tickerData) (ws_promise st))
                   (connected st) (ws_log st ++ [WsClose]))
    else Normal (Collector tickerData (ws_promise st) (connected st)
                   (ws_log st)).
Proof.
  destruct m as [text|bytes]; simpl; [|discriminate].
  destruct (JSON_parse text) as [data|]; [|discriminate].
  intros ->; reflexivity.
Qed.

(** Frames that can be read never stop the run, whatever the state of
    the promise; the log only grows. *)
Lemma on_message_readable (productIds : list jsstring) (st : collector)
  (m : message) :
  readable m ->
  exists st',
    on_message productIds st m = Normal st'
    /\ incl (ws_log st) (ws_log st').
Proof.
  intros Hread.
  destruct (ticker_of m) as [d|] eqn:E.
  - rewrite (on_message_ticker _ _ _ _ E); cbv zeta.
    destruct (Nat.eqb _ _); eexists; (split; [reflexivity|]); simpl.
    + apply incl_appl, incl_refl.
    + apply incl_refl.
  - rewrite on_message_ignored by assumption.
    eexists; split; [reflexivity | apply incl_refl].
Qed.

Lemma coinbase_run_readable (productIds : list jsstring)
  (frames : list message) (st : collector) :
  Forall readable frames ->
  connected st = true ->
  exists st',
    coinbase_run productIds st (map Message frames) = Normal st'
    /\ (ws_promise st <> Pending -> ws_promise st' = ws_promise st)
    /\ incl (ws_log st) (ws_log st').
Proof.
  revert st; induction frames as [|m frames IH]; intros st Hall Hconn.
  - exists st; simpl; auto using incl_refl.
  - inversion Hall as [|? ? Hm Hrest]; subst.
    destruct (on_message_readable productIds st m Hm) as (st1 & H1 & Hlog1).
    pose proof (on_message_settled _ _ _ _ H1) as [Hconn1 Hp1].
    destruct (IH st1 Hrest) as (st' & Hrun & Hp & Hlog).
    { rewrite Hconn1; exact Hconn. }
    exists st'; simpl; rewrite Hconn, H1.
    split; [exact Hrun|]; split.
    + intros Hset; rewrite <- (Hp1 Hset); apply Hp.
      rewrite (Hp1 Hset); exact Hset.
    + eapply incl_tran; eassumption.
Qed.

Lemma last_ticker_snoc (symbol : jsstring) (frames : list message)
  (m : message) :
  last_ticker symbol (frames ++ [m])
  = match ticker_of m with
    | Some d =>
        if string_eqb (CoinbaseTickerData.product_id d) symbol
        then Some d else last_ticker symbol frames
    | None => last_ticker symbol frames
    end.
Proof.
  induction frames as [|x frames IH]; simpl.
  - destruct (ticker_of m) as [d|]; [|reflexivity].
    destruct (string_eqb _ _); reflexivity.
  - rewrite IH.
    destruct (ticker_of m) as [d|]; [|reflexivity].
    destruct (string_eqb _ _); reflexivity.
Qed.

Lemma last_ticker_some (symbol : jsstring) (frames : list message)
  (d : CoinbaseTickerData.t) :
  last_ticker symbol frames = Some d ->
  CoinbaseTickerData.product_id d = symbol
  /\ exists m, In m frames /\ ticker_of m = Some d.
Proof.
  induction frames as [|x frames IH]; simpl; [discriminate|].
  destruct (last_ticker symbol frames) as [d'|].
  - intros H; injection H as ->.
    destruct (IH eq_refl) as (Hid & m & Hin & Hm).
    split; [exact Hid|]; exists m; auto.
  - destruct (ticker_of x) as [d'|] eqn:Hx; [|discriminate].
    destruct (string_eqb _ symbol) eqn:E; [|discriminate].
    intros H; injection H as ->.
    apply string_eqb_eq in E.
    split; [exact E|]; exists x; auto.
Qed.

Lemma last_ticker_reported (symbol : jsstring) (frames : list message)
  (m : message) (d : CoinbaseTickerData.t) :
  In m frames -> ticker_of m = Some d ->
  CoinbaseTickerData.product_id d = symbol ->
  last_ticker symbol frames <> None.
Proof.
  induction frames as [|x frames IH]; simpl; [tauto|].
  intros [-> | Hin] Hm Hid.
  - destruct (last_ticker symbol frames); [discriminate|].
    rewrite Hm, Hid, string_eqb_refl; discriminate.
  - specialize (IH Hin Hm Hid).
    destruct (last_ticker symbol frames); [discriminate | congruence].
Qed.

Section Collecting.

Variable productIds : list jsstring.
Hypothesis distinct : NoDup productIds.
Hypothesis no_proto : ~ In (js "__proto__") productIds.

Lemma collecting_keys (st : collector) (seen : list message) :
  collecting productIds st seen -> requested productIds seen ->
  incl (map fst (own (tickerData st))) productIds.
Proof.
  intros (_ & _ & _ & _ & Hlast) Hreq key Hkey.
  destruct (lookup key (own (tickerData st))) as [d|] eqn:E.
  - rewrite Hlast in E; apply last_ticker_some in E.
    destruct E as (<- & m & Hin & Hm); eapply Hreq; eassumption.
  - apply lookup_none in E; contradiction.
Qed.

Lemma stored_last (td : object CoinbaseTickerData.t)
  (seen : list message) (m : message) (d : CoinbaseTickerData.t)
  (f : bool) :
  (forall key, lookup key (own td) = last_ticker key seen) ->
  ticker_of m = Some d ->
  In (CoinbaseTickerData.product_id d) productIds ->
  forall key,
    lookup key (own (assign td (CoinbaseTickerData.product_id d) d f))
    = last_ticker key (seen ++ [m]).
Proof.
  intros Hlast Hm Hin key.
  rewrite assign_own by (intros Heq; rewrite Heq in Hin; contradiction).
  rewrite lookup_define, last_ticker_snoc, Hm, Hlast; reflexivity.
Qed.

Lemma resolved_quotes (td : object CoinbaseTickerData.t)
  (seen : list message) :
  NoDup (map fst (own td)) ->
  (forall key, lookup key (own td) = last_ticker key seen) ->
  incl (map fst (own td)) productIds ->
  List.length (own td) = List.length productIds ->
  List.length (Object_values td) = List.length productIds
  /\ Permutation (map CoinbaseTickerData.product_id (Object_values td))
                 productIds
  /\ forall q, In q (Object_values td) ->
       last_ticker (CoinbaseTickerData.product_id q) seen = Some q.
Proof.
  intros Hnd Hlast Hincl Hlen.
  assert (Hentry : forall e, In e (Object_entries td) ->
            last_ticker (fst e) seen = Some (snd e)
            /\ CoinbaseTickerData.product_id (snd e) = fst e).
  { intros [k v] Hin.
    apply (Permutation_in _ (Object_entries_perm td)) in Hin.
    apply (in_lookup _ _ _ Hnd) in Hin.
    rewrite Hlast in Hin; simpl.
    split; [exact Hin | apply (last_ticker_some _ _ _ Hin)]. }
  split; [rewrite Object_values_length; exact Hlen|]; split.
  - unfold Object_values; rewrite map_map.
    rewrite (map_ext_in _ fst) by (intros e He; apply Hentry, He).
    rewrite (Permutation_map fst (Object_entries_perm td)).
    apply NoDup_Permutation_bis; [exact Hnd | | exact Hincl].
    rewrite length_map, Hlen; apply Nat.le_refl.
  - unfold Object_values; intros q Hq.
    apply in_map_iff in Hq; destruct Hq as (e & <- & He).
    destruct (Hentry e He) as [Hl Hid]; rewrite Hid; exact Hl.
Qed.

Lemma collect (frames : list message) :
  forall (seen : list message) (st : collector),
    collecting productIds st seen ->
    Forall readable frames ->
    requested productIds (seen ++ frames) ->
    (forall s, In s productIds ->
       exists m d, In m (seen ++ frames) /\ ticker_of m = Some d
                   /\ CoinbaseTickerData.product_id d = s) ->
    exists before m after st_before st_m st' quotes,
      frames = before ++ m :: after
      /\ coinbase_run productIds st (map Message before) = Normal st_before
      /\ ws_promise st_before = Pending
      /\ coinbase_run productIds st (map Message (before ++ [m]))
         = Normal st_m
      /\ ws_promise st_m = Fulfilled quotes
      /\ coinbase_run productIds st (map Message frames) = Normal st'
      /\ ws_promise st' = Fulfilled quotes
      /\ In WsClose (ws_log st')
      /\ List.length quotes = List.length productIds
      /\ Permutation (map CoinbaseTickerData.product_id quotes) productIds
      /\ forall q, In q quotes ->
           last_ticker (CoinbaseTickerData.product_id q)
                       (seen ++ before ++ [m]) = Some q.
Proof.
  induction frames as [|m frames IH]; intros seen st Hcol Hread Hreq Hall.
  - (* every product has reported, so the keys cover the product ids *)
    exfalso.
    rewrite app_nil_r in Hreq, Hall.
    destruct Hcol as (_ & _ & Hnd & Hlt & Hlast).
    assert (Hincl : incl productIds (map fst (own (tickerData st)))).
    { intros s Hs.
      destruct (Hall s Hs) as (m & d & Hin & Hm & Hid).
      pose proof (last_ticker_reported s seen m d Hin Hm Hid) as Hsome.
      rewrite <- Hlast in Hsome.
      destruct (in_dec (list_eq_dec N.eq_dec) s
                  (map fst (own (tickerData st)))) as [Hk|Hk];
        [exact Hk|].
      apply lookup_none in Hk; contradiction. }
    apply (NoDup_incl_length distinct) in Hincl.
    rewrite length_map in Hincl; lia.
  - inversion Hread as [|? ? Hm Hrest]; subst.
    pose proof Hcol as (Hconn & Hpend & Hnd & Hlt & Hlast).
    assert (Hseen : requested productIds seen)
      by (intros x d Hx; apply Hreq, in_or_app; left; exact Hx).
    assert (Hnext :
      forall st1, on_message productIds st m = Normal st1 ->
        collecting productIds st1 (seen ++ [m]) ->
        exists before m0 after st_before st_m st' quotes,
          m :: frames = before ++ m0 :: after
          /\ coinbase_run productIds st (map Message before)
             = Normal st_before
          /\ ws_promise st_before = Pending
          /\ coinbase_run productIds st (map Message (before ++ [m0]))
             = Normal st_m
          /\ ws_promise st_m = Fulfilled quotes
          /\ coinbase_run productIds st (map Message (m :: frames))
             = Normal st'
          /\ ws_promise st' = Fulfilled quotes
          /\ In WsClose (ws_log st')
          /\ List.length quotes = List.length productIds
          /\ Permutation (map CoinbaseTickerData.product_id quotes)
                         productIds
          /\ forall q, In q quotes ->
               last_ticker (CoinbaseTickerData.product_id q)
                           (seen ++ before ++ [m0]) = Some q).
    { intros st1 Hstep Hcol1.
      destruct (IH (seen ++ [m]) st1 Hcol1 Hrest)
        as (before & m0 & after & sb & sm & st' & quotes & -> & Hb & Hpb
            & Hm0 & Hpm & Hrun & Hful & Hclose & Hlen & Hperm & Hq).
      { rewrite <- app_assoc; exact Hreq. }
      { rewrite <- app_assoc; exact Hall. }
      exists (m :: before), m0, after, sb, sm, st', quotes.
      simpl; rewrite Hconn, Hstep.
      repeat (split; [assumption || reflexivity|]).
      intros q Hin; rewrite <- (Hq q Hin), <- app_assoc; reflexivity. }
    destruct (ticker_of m) as [d|] eqn:Ht.
    + assert (Hd : In (CoinbaseTickerData.product_id d) productIds)
        by (apply (Hreq m d); [apply in_or_app; right; left|]; auto).
      pose proof (stored_last _ seen m d (shadows m) Hlast Ht Hd) as Hlast1.
      assert (Hown :
        own (assign (tickerData st) (CoinbaseTickerData.product_id d) d
           (shadows m))
        = define (CoinbaseTickerData.product_id d) d (own (tickerData st)))
        by (apply assign_own; intros Heq; rewrite Heq in Hd;
            contradiction).
      assert (Hnd1 : NoDup (map fst (own
        (assign (tickerData st) (CoinbaseTickerData.product_id d) d
           (shadows m)))))
        by (rewrite Hown; apply define_nodup; exact Hnd).
      assert (Hincl1 : incl (map fst (own
        (assign (tickerData st) (CoinbaseTickerData.product_id d) d
           (shadows m))))
        productIds).
      { rewrite Hown, define_keys.
        pose proof (collecting_keys st seen Hcol Hseen) as Hk.
        destruct (lookup _ _); [exact Hk|].
        apply incl_app; [exact Hk|].
        intros x [<-|[]]; exact Hd. }
      pose proof (on_message_ticker productIds st m d Ht) as Hstep.
      cbv zeta in Hstep.
      rewrite Object_keys_length in Hstep.
      destruct (Nat.eqb _ _) eqn:Hfull.
      * (* the last missing product: the promise resolves here *)
        apply Nat.eqb_eq in Hfull.
        destruct (resolved_quotes _ (seen ++ [m]) Hnd1 Hlast1 Hincl1 Hfull)
          as (Hlen & Hperm & Hq).
        destruct (coinbase_run_readable productIds frames
                    (Collector
                       (assign (tickerData st)
                               (CoinbaseTickerData.product_id d) d
                               (shadows m))
                       (resolve
                          (Object_values
                             (assign (tickerData st)
                                (CoinbaseTickerData.product_id d) d
                                (shadows m)))
                          (ws_promise st))
                       (connected st) (ws_log st ++ [WsClose]))
                    Hrest Hconn)
          as (st' & Hrun & Hkeep & Hlog).
        simpl in Hkeep, Hlog; rewrite Hpend in Hkeep; simpl in Hkeep.
        exists [], m, frames, st; eexists _, st', _.
        split; [reflexivity|].
        split; [reflexivity|].
        split; [exact Hpend|].
        split; [simpl; rewrite Hconn, Hstep; reflexivity|].
        split; [simpl; rewrite Hpend; reflexivity|].
        split; [simpl; rewrite Hconn, Hstep; exact Hrun|].
        split; [apply Hkeep; discriminate|].
        split; [apply Hlog, in_or_app; right; left; reflexivity|].
        split; [exact Hlen|].
        split; [exact Hperm|].
        exact Hq.
      * apply Nat.eqb_neq in Hfull.
        eapply Hnext; [exact Hstep|].
        pose proof (NoDup_incl_length Hnd1 Hincl1) as Hle.
        rewrite length_map in Hle.
        repeat split; simpl; try assumption; lia.
    + eapply Hnext; [apply on_message_ignored; assumption|].
      repeat split; try assumption.
      intros key; rewrite last_ticker_snoc, Ht; apply Hlast.
Qed.

End Collecting.

(** C1, as the code has it.  For every non-empty list of distinct
    product ids without the key [__proto__], and every sequence of frames
    that can all be read, whose valid ticker frames name requested
    products only and name each of them at least once, the promise is
    pending until one frame [m] completes the set and is resolved by its
    listener: the connection is closed and the result has as many quotes
    as there are product ids, one per product id, each the last valid
    ticker frame received for its product up to and including [m]. *)
Theorem C1_one_last_quote_per_symbol (productIds : list jsstring)
  (frames : list message) :
  productIds <> [] ->
  NoDup productIds ->
  ~ In (js "__proto__") productIds ->
  Forall readable frames ->
  requested productIds frames ->
  (forall s, In s productIds ->
     exists m d, In m frames /\ ticker_of m = Some d
                 /\ CoinbaseTickerData.product_id d = s) ->
  exists before m after st_before st_m st quotes,
    frames = before ++ m :: after
    /\ coinbase_run productIds (getCoinbasePriceData productIds)
         (Connect :: map Message before) = Normal st_before
    /\ ws_promise st_before = Pending
    /\ coinbase_run productIds (getCoinbasePriceData productIds)
         (Connect :: map Message (before ++ [m])) = Normal st_m
    /\ ws_promise st_m = Fulfilled quotes
    /\ coinbase_run productIds (getCoinbasePriceData productIds)
         (Connect :: map Message frames) = Normal st
    /\ ws_promise st = Fulfilled quotes
    /\ In WsClose (ws_log st)
    /\ List.length quotes = List.length productIds
    /\ Permutation (map CoinbaseTickerData.product_id quotes) productIds
    /\ forall q, In q quotes ->
         last_ticker (CoinbaseTickerData.product_id q) (before ++ [m])
         = Some q.
Proof.
  intros Hne Hnd Hproto Hread Hreq Hall.
  apply (collect productIds Hnd Hproto frames []
           (on_connect productIds (getCoinbasePriceData productIds)));
    try assumption.
  repeat split; simpl; try constructor.
  destruct productIds; [congruence | simpl; lia].
Qed.

Lemma C1_witness :
  exists st,
    coinbase_run [js "BTC-GBP"; js "XTZ-GBP"]
      (getCoinbasePriceData [js "BTC-GBP"; js "XTZ-GBP"])
      (Connect
       :: map Message
            [Utf8 (text "{'type':'subscriptions','channels':[]}");
             ticker_frame "BTC-GBP" "50000.00";
             Binary [0; 1];
             ticker_frame "BTC-GBP" "50001.50";
             ticker_frame "XTZ-GBP" "2.75";
             ticker_frame "BTC-GBP" "49999.00"]) = Normal st
    /\ ws_promise st
       = Fulfilled [CoinbaseTickerData.make (js "BTC-GBP") (js "50001.50");
                    CoinbaseTickerData.make (js "XTZ-GBP") (js "2.75")].
Proof.
  destruct (C1_one_last_quote_per_symbol [js "BTC-GBP"; js "XTZ-GBP"]
              [Utf8 (text "{'type':'subscriptions','channels':[]}");
               ticker_frame "BTC-GBP" "50000.00";
               Binary [0; 1];
               ticker_frame "BTC-GBP" "50001.50";
               ticker_frame "XTZ-GBP" "2.75";
               ticker_frame "BTC-GBP" "49999.00"])
    as (before & m & after & sb & sm & st & quotes & _ & _ & _ & _ & _
        & Hrun & Hq & _).
  - discriminate.
  - repeat constructor; simpl; intros H;
      repeat (destruct H as [H|H]; [discriminate H|]); exact H.
  - simpl; intros H;
      repeat (destruct H as [H|H]; [discriminate H|]); exact H.
  - repeat constructor; vm_compute; discriminate.
  - intros x d Hin Hx; simpl in Hin.
    repeat (destruct Hin as [<-|Hin];
            [vm_compute in Hx; try discriminate Hx;
             injection Hx as <-; simpl; auto|]).
    destruct Hin.
  - intros s [<-|[<-|[]]].
    + exists (ticker_frame "BTC-GBP" "50000.00"); eexists.
      split; [simpl; auto|]; split; vm_compute; reflexivity.
    + exists (ticker_frame "XTZ-GBP" "2.75"); eexists.
      split; [simpl; auto 6|]; split; vm_compute; reflexivity.
  - exists st; split; [exact Hrun|].
    vm_compute in Hrun; injection Hrun as <-; reflexivity.
Defined.

(** The claim C1 fails on the code in three ways.  A valid ticker for a
    product that was not requested is counted like any other, so with a
    stray frame for [C] the promise resolves with the quotes of [C] and
    [A] although [B] comes later.  A ticker for [__proto__] is not stored
    as a key, so that product never reports.  A frame that is not JSON
    makes the listener throw, which ends the run. *)
Lemma C1_counterexample :
  (exists st,
     coinbase_run [js "A"; js "B"] (getCoinbasePriceData [js "A"; js "B"])
       (Connect :: map Message [ticker_frame "C" "1"; ticker_frame "A" "2";
                                ticker_frame "B" "3"]) = Normal st
     /\ ws_promise st
        = Fulfilled [CoinbaseTickerData.make (js "C") (js "1");
                     CoinbaseTickerData.make (js "A") (js "2")]
     /\ ~ In (js "B")
            (map CoinbaseTickerData.product_id
               [CoinbaseTickerData.make (js "C") (js "1");
                CoinbaseTickerData.make (js "A") (js "2")]))
  /\ (exists st,
        coinbase_run [js "__proto__"] (getCoinbasePriceData [js "__proto__"])
          (Connect :: map Message [ticker_frame "__proto__" "1"])
        = Normal st
        /\ ticker_of (ticker_frame "__proto__" "1")
           = Some (CoinbaseTickerData.make (js "__proto__") (js "1"))
        /\ ws_promise st = Pending)
  /\ coinbase_run [js "A"] (getCoinbasePriceData [js "A"])
       (Connect :: map Message [Utf8 (js "pong"); ticker_frame "A" "1"])
     = Throw SyntaxError.
Proof.
  split; [|split].
  - eexists; split; [|split]; [vm_compute; reflexivity..|].
    simpl; intros [H|[H|[]]]; discriminate H.
  - eexists; split; [|split]; vm_compute; reflexivity.
  - vm_compute; reflexivity.
Qed.

(** The frames that the listener does drop: a text frame whose text
    parses as JSON and whose value fails the guard leaves [tickerData],
    the promise and the connection as they were, without an exception,
    so the run goes on with the next event as if the frame had not
    come. *)
Theorem invalid_json_frame_dropped (productIds : list jsstring)
  (st : collector) (utf8Data : jsstring) (data : json)
  (evs : list ws_event) :
  JSON_parse utf8Data = Some data ->
  isCoinbaseTickerData data = false ->
  on_message productIds st (Utf8 utf8Data) = Normal st
  /\ coinbase_step productIds st (Message (Utf8 utf8Data)) = Normal st
  /\ coinbase_run productIds st (Message (Utf8 utf8Data) :: evs)
     = coinbase_run productIds st evs.
Proof.
  intros Hparse Hguard.
  assert (H : on_message productIds st (Utf8 utf8Data) = Normal st).
  { apply on_message_ignored; simpl; rewrite Hparse; [discriminate|].
    apply asCoinbaseTickerData_none; exact Hguard. }
  assert (H' : coinbase_step productIds st (Message (Utf8 utf8Data))
               = Normal st)
    by (cbn [coinbase_step]; rewrite H; destruct (connected st);
        reflexivity).
  repeat split; [exact H | exact H'|].
  cbn [coinbase_run]; rewrite H'; reflexivity.
Qed.

Lemma invalid_json_frame_dropped_witness :
  let st := on_connect coinbaseProducts
              (getCoinbasePriceData coinbaseProducts) in
  on_message coinbaseProducts st
    (Utf8 (text "{'type':'heartbeat','product_id':'BTC-GBP'}"))
  = Normal st.
Proof.
  intros st.
  refine (proj1 (invalid_json_frame_dropped coinbaseProducts st
                   (text "{'type':'heartbeat','product_id':'BTC-GBP'}")
                   _ [] eq_refl eq_refl)).
Defined.

(** C2, at a text frame that is not JSON.  The claim has every text
    frame that is not a valid ticker object dropped without an error.
    The listener skips binary frames and values that fail the guard, but
    calls [JSON.parse] unguarded: on the frame [pong] it throws, the
    exception ends the process, and the ticker that follows is not
    collected. *)
Lemma C2_non_json_frame_throws :
  ticker_of (Utf8 (js "pong")) = None
  /\ on_message coinbaseProducts
       (on_connect coinbaseProducts (getCoinbasePriceData coinbaseProducts))
       (Utf8 (js "pong")) = Throw SyntaxError
  /\ (let p := run printExchangeRates
                 [Ws Connect; Ws (Message (Utf8 (js "pong")));
                  Ws (Message (ticker_frame "BTC-GBP" "50000.00"))] in
      uncaught p = Some SyntaxError
      /\ own (tickerData (coinbase p)) = []).
Proof. vm_compute; repeat split. Qed.

(** C3, as the code has it.  An ['error'] event on the open connection
    that arrives while the promise is pending closes the connection and
    rejects the promise with that error; the promise is never resolved
    afterwards; and the promise of [printExchangeRates()], when still
    pending, is rejected with the same error, which is logged, and
    nothing is written. *)
Theorem C3_connection_error_rejects (productIds : list jsstring)
  (st : collector) (e : error) :
  connected st = true ->
  ws_promise st = Pending ->
  exists st',
    coinbase_step productIds st (ConnectionError e) = Normal st'
    /\ ws_log st' = ws_log st ++ [WsClose]
    /\ ws_promise st' = Rejected e
    /\ (forall evs st'',
          coinbase_run productIds st' evs = Normal st'' ->
          ws_promise st'' = Rejected e)
    /\ forall p,
         uncaught p = None -> coinbase p = st -> aggregate p = Pending ->
         aggregate (step p (Ws (ConnectionError e))) = Rejected e
         /\ console_error (step p (Ws (ConnectionError e)))
            = console_error p ++ [e]
         /\ stdout (step p (Ws (ConnectionError e))) = stdout p.
Proof.
  intros Hconn Hpend.
  exists (on_error st e).
  assert (Hrej : ws_promise (on_error st e) = Rejected e)
    by (unfold on_error; simpl; rewrite Hpend; reflexivity).
  split; [cbn [coinbase_step]; rewrite Hconn; reflexivity|].
  split; [reflexivity|]; split; [exact Hrej|]; split.
  - intros evs st'' Hrun.
    rewrite <- Hrej; eapply coinbase_run_settled; [exact Hrun|].
    rewrite Hrej; discriminate.
  - intros p Hun Hp Hagg; subst st.
    unfold step, settle; rewrite Hun.
    cbn [coinbase_step]; rewrite Hconn.
    cbn [aggregate coinbase binance]; rewrite Hagg, Hrej.
    simpl; repeat split.
Qed.

Lemma C3_witness :
  let p := run printExchangeRates
             [Ws Connect; Ws (Message (ticker_frame "BTC-GBP" "50000.00"));
              Ws (ConnectionError (Failure (js "ECONNRESET")))] in
  ws_promise (coinbase p) = Rejected (Failure (js "ECONNRESET"))
  /\ aggregate p = Rejected (Failure (js "ECONNRESET"))
  /\ console_error p = [Failure (js "ECONNRESET")]
  /\ stdout p = [].
Proof.
  intros p.
  destruct (C3_connection_error_rejects coinbaseProducts
              (coinbase (run printExchangeRates
                 [Ws Connect;
                  Ws (Message (ticker_frame "BTC-GBP" "50000.00"))]))
              (Failure (js "ECONNRESET")) eq_refl eq_refl)
    as (st' & _ & _ & _ & _ & Hp).
  destruct (Hp (run printExchangeRates
                  [Ws Connect;
                   Ws (Message (ticker_frame "BTC-GBP" "50000.00"))])
               eq_refl eq_refl eq_refl) as (Hagg & Herr & Hout).
  split; [vm_compute; reflexivity|].
  split; [exact Hagg|]; split; [exact Herr | exact Hout].
Defined.

(** The claim C3 fails on the code in two ways.  A failure to connect is
    reported as ['connectFailed'] on the client, which has no listener:
    the promise stays pending, the connection is not closed and nothing
    reaches the caller.  And the promise may have been resolved before
    every requested product has reported (a stray ticker for [C] fills
    the count), after which an error no longer rejects it. *)
Lemma C3_counterexample :
  (let p := run printExchangeRates
              [Ws (ConnectFailed (Failure (js "ENOTFOUND")))] in
   ws_promise (coinbase p) = Pending
   /\ ws_log (coinbase p) = [WsConnect (js "wss://ws-feed.pro.coinbase.com")]
   /\ aggregate p = Pending
   /\ console_error p = []
   /\ uncaught p = None)
  /\ (exists st,
        coinbase_run [js "A"; js "B"] (getCoinbasePriceData [js "A"; js "B"])
          [Connect; Message (ticker_frame "C" "1");
           Message (ticker_frame "A" "2");
           ConnectionError (Failure (js "ECONNRESET"))] = Normal st
        /\ ws_promise st
           = Fulfilled [CoinbaseTickerData.make (js "C") (js "1");
                        CoinbaseTickerData.make (js "A") (js "2")]).
Proof.
  split.
  - vm_compute; repeat split.
  - eexists; split; vm_compute; reflexivity.
Qed.

(* ================================================================= *)
(** * More about the type guards *)

(** [isCoinbaseTickerData] accepts exactly the JSON objects that own a
    property [type] equal to the string 'ticker' and string properties
    [product_id] and [price]; null, arrays and primitives are refused,
    and other properties do not matter. *)
Theorem isCoinbaseTickerData_iff (value : json) :
  isCoinbaseTickerData value = true <->
  exists props product_id price,
    value = JObject props
    /\ lookup (js "type") props = Some (JString (js "ticker"))
    /\ lookup (js "product_id") props = Some (JString product_id)
    /\ lookup (js "price") props = Some (JString price).
Proof.
  unfold isCoinbaseTickerData; split.
  - rewrite !andb_true_iff; intros [[[[_ Hnull] Ht] Hp] Hq].
    destruct value as [| b | n | s | items | props]; try discriminate.
    unfold get in Ht, Hp, Hq.
    destruct (lookup (js "type") props) as [[| | | t | |]|] eqn:Et;
      simpl in Ht; try discriminate Ht.
    destruct (lookup (js "product_id") props) as [[| | | pid | |]|] eqn:Ep;
      simpl in Hp; try discriminate Hp.
    destruct (lookup (js "price") props) as [[| | | pr | |]|] eqn:Eq;
      simpl in Hq; try discriminate Hq.
    apply string_eqb_eq in Ht; subst t.
    exists props, pid, pr; repeat split; assumption.
  - intros (props & pid & pr & -> & Ht & Hp & Hq); unfold get.
    rewrite Ht, Hp, Hq; reflexivity.
Qed.

(** [isBinanceTickerData] accepts exactly the JSON objects that own
    string properties [symbol] and [price]. *)
Theorem isBinanceTickerData_iff (value : json) :
  isBinanceTickerData value = true <->
  exists props symbol price,
    value = JObject props
    /\ lookup (js "symbol") props = Some (JString symbol)
    /\ lookup (js "price") props = Some (JString price).
Proof.
  unfold isBinanceTickerData; split.
  - rewrite !andb_true_iff; intros [[[_ Hnull] Hs] Hq].
    destruct value as [| b | n | s | items | props]; try discriminate.
    unfold get in Hs, Hq.
    destruct (lookup (js "symbol") props) as [[| | | sym | |]|] eqn:Es;
      simpl in Hs; try discriminate Hs.
    destruct (lookup (js "price") props) as [[| | | pr | |]|] eqn:Eq;
      simpl in Hq; try discriminate Hq.
    exists props, sym, pr; repeat split; assumption.
  - intros (props & sym & pr & -> & Hs & Hq); unfold get.
    rewrite Hs, Hq; reflexivity.
Qed.

(** [filter(isNotNull)] deletes the nulls and nothing else: wrapped
    again, the result is the input without its nulls, in the same order;
    a value is in the result exactly when it is in the input; and an
    array without nulls comes back whole. *)
Theorem filter_isNotNull_drops_only_nulls {T : Type} (a : list (option T)) :
  map Some (narrow (filter isNotNull a)) = filter isNotNull a
  /\ (forall x, In x (narrow (filter isNotNull a)) <-> In (Some x) a)
  /\ (forall l : list T, narrow (filter isNotNull (map Some l)) = l).
Proof.
  split; [|split].
  - induction a as [|[v|] a IH]; simpl; [reflexivity | | exact IH].
    rewrite IH; reflexivity.
  - intros x; induction a as [|[v|] a IH]; simpl; [tauto | |].
    + rewrite IH; split; (intros [H|H]; [left; congruence | right; exact H]).
    + rewrite IH; split; [intros H; right; exact H|].
      intros [H|H]; [discriminate | exact H].
  - intros l; induction l as [|v l IH]; simpl; [reflexivity|].
    rewrite IH; reflexivity.
Qed.

(* ================================================================= *)
(** * More about getCoinbasePriceData *)

Lemma on_message_store (productIds : list jsstring) (st : collector)
  (m : message) (d : CoinbaseTickerData.t) :
  ticker_of m = Some d ->
  on_message productIds st m = Normal (store productIds st d (shadows m)).
Proof.
  intros Hm; rewrite (on_message_ticker _ _ _ _ Hm); unfold store.
  cbv zeta; destruct (Nat.eqb _ _); reflexivity.
Qed.

(** The ways an event leaves the closure. *)
Lemma coinbase_step_cases (productIds : list jsstring) (st st' : collector)
  (ev : ws_event) :
  coinbase_step productIds st ev = Normal st' ->
  (ev = Connect /\ st' = on_connect productIds st)
  \/ (exists e, ev = ConnectFailed e /\ st' = st)
  \/ (exists e, ev = ConnectionError e
        /\ (connected st = false /\ st' = st
            \/ connected st = true /\ st' = on_error st e))
  \/ (exists m, ev = Message m
        /\ (connected st = false /\ st' = st
            \/ connected st = true /\ ticker_of m = None /\ st' = st
            \/ connected st = true
               /\ exists d, ticker_of m = Some d
                            /\ st' = store productIds st d (shadows m))).
Proof.
  destruct ev as [| e | m | e]; cbn [coinbase_step]; intros H.
  - left; injection H as <-; auto.
  - right; left; exists e; injection H as <-; auto.
  - right; right; right; exists m; split; [reflexivity|].
    destruct (connected st); [|injection H as <-; auto].
    right.
    destruct (ticker_of m) as [d|] eqn:E.
    + right; split; [reflexivity|]; exists d; split; [reflexivity|].
      rewrite (on_message_store _ _ _ _ E) in H; injection H as <-.
      reflexivity.
    + left; split; [reflexivity|]; split; [reflexivity|].
      destruct m as [utf8Data|bytes]; simpl in H, E.
      * destruct (JSON_parse utf8Data); [|discriminate].
        rewrite E in H; injection H as <-; reflexivity.
      * injection H as <-; reflexivity.
  - right; right; left; exists e; split; [reflexivity|].
    destruct (connected st); injection H as <-; auto.
Qed.

Lemma store_cases (productIds : list jsstring) (st : collector)
  (d : CoinbaseTickerData.t) (f : bool) :
  tickerData (store productIds st d f)
  = assign (tickerData st) (CoinbaseTickerData.product_id d) d f
  /\ connected (store productIds st d f) = connected st
  /\ (List.length (own (tickerData (store productIds st d f)))
      = List.length productIds
      /\ ws_promise (store productIds st d f)
         = resolve (Object_values (tickerData (store productIds st d f)))
                   (ws_promise st)
      /\ ws_log (store productIds st d f) = ws_log st ++ [WsClose]
      \/ List.length (own (tickerData (store productIds st d f)))
         <> List.length productIds
         /\ ws_promise (store productIds st d f) = ws_promise st
         /\ ws_log (store productIds st d f) = ws_log st).
Proof.
  unfold store; cbv zeta; rewrite Object_keys_length.
  destruct (Nat.eqb _ _) eqn:E; cbn [tickerData connected ws_promise ws_log].
  - apply Nat.eqb_eq in E.
    split; [reflexivity|]; split; [reflexivity|]; left.
    split; [exact E|]; split; reflexivity.
  - apply Nat.eqb_neq in E.
    split; [reflexivity|]; split; [reflexivity|]; right.
    split; [exact E|]; split; reflexivity.
Qed.

(** A property kept by every event is kept by a run. *)
Lemma coinbase_run_invariant (productIds : list jsstring)
  (P : list ws_event -> collector -> Prop) (evs : list ws_event) :
  (forall seen st ev st',
     In ev evs -> P seen st ->
     coinbase_step productIds st ev = Normal st' -> P (seen ++ [ev]) st') ->
  forall seen st st',
    P seen st -> coinbase_run productIds st evs = Normal st' ->
    P (seen ++ evs) st'.
Proof.
  induction evs as [|ev evs IH]; intros Hstep seen st st' HP Hrun;
    simpl in Hrun.
  - injection Hrun as <-; rewrite app_nil_r; exact HP.
  - destruct (coinbase_step productIds st ev) as [st1|] eqn:E;
      [|discriminate].
    replace (seen ++ ev :: evs) with ((seen ++ [ev]) ++ evs)
      by (rewrite <- app_assoc; reflexivity).
    apply (IH (fun seen0 st0 ev0 st0' Hin =>
                 Hstep seen0 st0 ev0 st0' (or_intror Hin))
              (seen ++ [ev]) st1 st').
    + apply (Hstep seen st ev st1); [left; reflexivity | exact HP | exact E].
    + exact Hrun.
Qed.

Lemma messages_snoc (seen : list ws_event) (ev : ws_event) :
  messages (seen ++ [ev])
  = messages seen ++ match ev with Message m => [m] | _ => [] end.
Proof.
  unfold messages; rewrite flat_map_app; simpl; rewrite app_nil_r.
  reflexivity.
Qed.

Lemma assign_cases {V : Type} (o : object V) (key : jsstring) (v : V)
  (f : bool) :
  key = js "__proto__" /\ own (assign o key v f) = own o
  \/ own (assign o key v f) = define key v (own o).
Proof.
  unfold assign.
  destruct (string_eqb key (js "__proto__")) eqn:E; [|right; reflexivity].
  apply string_eqb_eq in E.
  destruct (has_own key (own o)), (shadowed o); simpl;
    try (right; reflexivity).
  left; auto.
Qed.

Lemma in_define {V : Type} (key k : jsstring) (v w : V)
  (props : list (jsstring * V)) :
  In (k, w) (define key v props) -> (k = key /\ w = v) \/ In (k, w) props.
Proof.
  induction props as [|[k0 w0] props IH]; simpl.
  - intros [H|[]]; injection H as <- <-; auto.
  - destruct (string_eqb k0 key) eqn:E.
    + apply string_eqb_eq in E; subst k0.
      intros [H|H]; [injection H as <- <-; auto | auto].
    + intros [H|H]; [auto|].
      destruct (IH H) as [Heq|Hin]; auto.
Qed.

Lemma define_length {V : Type} (key : jsstring) (v : V)
  (props : list (jsstring * V)) :
  (1 <= List.length (define key v props))%nat.
Proof.
  destruct props as [|[k w] props]; simpl; [lia|].
  destruct (string_eqb k key); simpl; lia.
Qed.

Lemma shaped_more (productIds : list jsstring) (M M' : list message)
  (st : collector) :
  incl M M' -> shaped productIds M st -> shaped productIds M' st.
Proof.
  intros Hincl (Hnd & Hown & Hres).
  split; [exact Hnd|]; split.
  - intros k v Hin; destruct (Hown k v Hin) as (Hid & m & Hm & Ht).
    split; [exact Hid|]; exists m; auto.
  - intros quotes Hq; destruct (Hres quotes Hq) as (Hlen & Hdist & Hsrc).
    split; [exact Hlen|]; split; [exact Hdist|].
    intros q Hin; destruct (Hsrc q Hin) as (m & Hm & Ht).
    exists m; auto.
Qed.

Lemma shaped_step (productIds : list jsstring) (seen : list ws_event)
  (st st' : collector) (ev : ws_event) :
  shaped productIds (messages seen) st ->
  coinbase_step productIds st ev = Normal st' ->
  shaped productIds (messages (seen ++ [ev])) st'.
Proof.
  intros Hsh Hstep.
  assert (Hmore : shaped productIds (messages (seen ++ [ev])) st).
  { apply (shaped_more _ (messages seen)); [|exact Hsh].
    rewrite messages_snoc; apply incl_appl, incl_refl. }
  apply coinbase_step_cases in Hstep.
  destruct Hstep as [[-> ->] | [(e & -> & ->) | [(e & -> & Herr)
    | (m & -> & Hmsg)]]]; try exact Hmore.
  - destruct Herr as [[_ ->] | [_ ->]]; [exact Hmore|].
    destruct Hmore as (Hnd & Hown & Hres).
    split; [exact Hnd|]; split; [exact Hown|].
    intros quotes Hq; apply Hres; simpl in Hq.
    destruct (ws_promise st); simpl in Hq; [discriminate | exact Hq..].
  - destruct Hmsg as [[_ ->] | [(_ & _ & ->) | (_ & d & Hd & ->)]];
      try exact Hmore.
    destruct Hmore as (Hnd & Hown & Hres).
    destruct (store_cases productIds st d (shadows m))
      as (Htd & _ & Hcases).
    assert (Hin_m : In m (messages (seen ++ [Message m])))
      by (rewrite messages_snoc; apply in_or_app; right; left; reflexivity).
    assert (Hnd' : NoDup (map fst (own (tickerData (store productIds st d (shadows m)))))).
    { rewrite Htd.
      destruct (assign_cases (tickerData st)
                  (CoinbaseTickerData.product_id d) d (shadows m))
        as [[_ ->] | ->];
        [exact Hnd | apply define_nodup; exact Hnd]. }
    assert (Hown' : forall k v,
              In (k, v) (own (tickerData (store productIds st d (shadows m)))) ->
              CoinbaseTickerData.product_id v = k
              /\ exists m0, In m0 (messages (seen ++ [Message m]))
                            /\ ticker_of m0 = Some v).
    { rewrite Htd; intros k v Hin.
      destruct (assign_cases (tickerData st)
                  (CoinbaseTickerData.product_id d) d (shadows m))
        as [[_ E] | E];
        rewrite E in Hin; [apply Hown; exact Hin|].
      apply in_define in Hin; destruct Hin as [[-> ->] | Hin];
        [|apply Hown; exact Hin].
      split; [reflexivity|]; exists m; auto. }
    split; [exact Hnd'|]; split; [exact Hown'|].
    intros quotes Hq.
    destruct Hcases as [(Hlen & Hp & _) | (_ & Hp & _)];
      rewrite Hp in Hq; [|apply Hres; exact Hq].
    destruct (ws_promise st) eqn:Hold; simpl in Hq;
      [| apply Hres; exact Hq | discriminate].
    injection Hq as <-.
    assert (Hentry : forall e0,
              In e0 (Object_entries (tickerData (store productIds st d (shadows m)))) ->
              CoinbaseTickerData.product_id (snd e0) = fst e0
              /\ exists m0, In m0 (messages (seen ++ [Message m]))
                            /\ ticker_of m0 = Some (snd e0)).
    { intros [k v] Hin.
      apply (Permutation_in _ (Object_entries_perm _)) in Hin.
      apply Hown'; exact Hin. }
    split; [rewrite Object_values_length; exact Hlen|]; split.
    + unfold Object_values; rewrite map_map.
      rewrite (map_ext_in _ fst) by (intros e0 He; apply Hentry, He).
      apply (Permutation_NoDup
               (Permutation_sym
                  (Permutation_map fst (Object_entries_perm _)))).
      exact Hnd'.
    + unfold Object_values; intros q Hin.
      apply in_map_iff in Hin; destruct Hin as (e0 & <- & He).
      apply Hentry; exact He.
Qed.

(** Whenever the promise of [getCoinbasePriceData] is fulfilled, whatever
    the events were, its value has exactly as many quotes as product ids
    were passed, no two quotes have the same product id, and every quote
    is the ticker of a frame that was received. *)
Theorem fulfilled_quotes_counted_and_distinct (productIds : list jsstring)
  (evs : list ws_event) (st : collector)
  (quotes : list CoinbaseTickerData.t) :
  coinbase_run productIds (getCoinbasePriceData productIds) evs = Normal st ->
  ws_promise st = Fulfilled quotes ->
  List.length quotes = List.length productIds
  /\ NoDup (map CoinbaseTickerData.product_id quotes)
  /\ forall q, In q quotes ->
       exists m, In m (messages evs) /\ ticker_of m = Some q.
Proof.
  intros Hrun Hq.
  assert (Hsh : shaped productIds (messages ([] ++ evs)) st).
  { apply (coinbase_run_invariant productIds
             (fun seen st0 => shaped productIds (messages seen) st0) evs)
      with (st := getCoinbasePriceData productIds); [| |exact Hrun].
    - intros seen st0 ev st0' _; apply shaped_step.
    - split; [constructor|]; split; [intros k v []|].
      intros quotes0 H; discriminate H. }
  destruct Hsh as (_ & _ & Hres); apply Hres; exact Hq.
Qed.

Lemma fulfilled_quotes_witness :
  exists st quotes,
    coinbase_run [js "A"; js "B"] (getCoinbasePriceData [js "A"; js "B"])
      [Connect; Message (ticker_frame "C" "1"); Message (Utf8 (js "{}"));
       Message (ticker_frame "A" "2"); ConnectionError (Failure (js "EPIPE"));
       Message (ticker_frame "B" "3")] = Normal st
    /\ ws_promise st = Fulfilled quotes
    /\ List.length quotes = 2%nat.
Proof.
  destruct (coinbase_run [js "A"; js "B"]
              (getCoinbasePriceData [js "A"; js "B"])
              [Connect; Message (ticker_frame "C" "1");
               Message (Utf8 (js "{}")); Message (ticker_frame "A" "2");
               ConnectionError (Failure (js "EPIPE"));
               Message (ticker_frame "B" "3")]) as [st|e] eqn:Hrun;
    [|vm_compute in Hrun; discriminate Hrun].
  assert (Hq : ws_promise st
               = Fulfilled [CoinbaseTickerData.make (js "C") (js "1");
                            CoinbaseTickerData.make (js "A") (js "2")])
    by (vm_compute in Hrun; injection Hrun as <-; reflexivity).
  exists st; eexists; split; [reflexivity|]; split; [exact Hq|].
  exact (proj1 (fulfilled_quotes_counted_and_distinct _ _ _ _ Hrun Hq)).
Defined.

Lemma resolve_not_pending {T : Type} (v : T) (p : promise T) :
  resolve v p <> Pending.
Proof. destruct p; discriminate. Qed.

Lemma reject_not_pending {T : Type} (e : error) (p : promise T) :
  reject e p <> Pending.
Proof. destruct p; discriminate. Qed.

Lemma reject_fulfilled {T : Type} (e : error) (p : promise T) (v : T) :
  reject e p = Fulfilled v -> p = Fulfilled v.
Proof. destruct p; simpl; congruence. Qed.

(** The connection is closed exactly when the promise has settled: in
    every run [connection.close()] has been called if and only if the
    promise of [getCoinbasePriceData] is no longer pending. *)
Theorem closed_iff_settled (productIds : list jsstring)
  (evs : list ws_event) (st : collector) :
  coinbase_run productIds (getCoinbasePriceData productIds) evs = Normal st ->
  (In WsClose (ws_log st) <-> ws_promise st <> Pending).
Proof.
  intros Hrun.
  apply (coinbase_run_invariant productIds
           (fun _ st0 => In WsClose (ws_log st0) <-> ws_promise st0 <> Pending)
           evs) with (seen := []) (st := getCoinbasePriceData productIds);
    [| |exact Hrun].
  - intros seen st0 ev st0' _ HP Hstep.
    apply coinbase_step_cases in Hstep.
    destruct Hstep as [[-> ->] | [(e & -> & ->) | [(e & -> & Herr)
      | (m & -> & Hmsg)]]].
    + simpl; rewrite in_app_iff, HP; simpl.
      split; [intros [H|[H|[]]]; [exact H | discriminate H] | auto].
    + exact HP.
    + destruct Herr as [[_ ->] | [_ ->]]; [exact HP|]; simpl.
      split; [intros _; apply reject_not_pending|].
      intros _; apply in_or_app; right; left; reflexivity.
    + destruct Hmsg as [[_ ->] | [(_ & _ & ->) | (_ & d & _ & ->)]];
        try exact HP.
      destruct (store_cases productIds st0 d (shadows m))
        as (_ & _ & [(_ & Hp & Hlog) | (_ & Hp & Hlog)]);
        rewrite Hp, Hlog; [|exact HP].
      split; [intros _; apply resolve_not_pending|].
      intros _; apply in_or_app; right; left; reflexivity.
  - simpl; split; [intros [H|[]]; discriminate H | intros H; congruence].
Qed.

Lemma closed_iff_settled_witness :
  exists st,
    coinbase_run [js "A"] (getCoinbasePriceData [js "A"])
      [Connect; Message (ticker_frame "A" "1")] = Normal st
    /\ In WsClose (ws_log st).
Proof.
  destruct (coinbase_run [js "A"] (getCoinbasePriceData [js "A"])
              [Connect; Message (ticker_frame "A" "1")]) as [st|e] eqn:Hrun;
    [|vm_compute in Hrun; discriminate Hrun].
  exists st; split; [reflexivity|].
  apply (closed_iff_settled _ _ _ Hrun).
  vm_compute in Hrun; injection Hrun as <-; discriminate.
Defined.

(** Last write wins, in every run: after ['connect'], [tickerData] holds
    under each key other than [__proto__] the last valid ticker received
    for that product id, and nothing under a product id that no valid
    ticker named; errors and other frames in between change nothing. *)
Theorem tickerData_holds_last_ticker (productIds : list jsstring)
  (evs : list ws_event) (st : collector) :
  coinbase_run productIds (getCoinbasePriceData productIds) (Connect :: evs)
  = Normal st ->
  forall key,
    key <> js "__proto__" ->
    lookup key (own (tickerData st)) = last_ticker key (messages evs).
Proof.
  cbn [coinbase_run coinbase_step]; intros Hrun.
  enough (H : connected st = true
              /\ forall key, key <> js "__proto__" ->
                   lookup key (own (tickerData st))
                   = last_ticker key (messages ([] ++ evs)))
    by exact (proj2 H).
  apply (coinbase_run_invariant productIds
           (fun seen st0 =>
              connected st0 = true
              /\ forall key, key <> js "__proto__" ->
                   lookup key (own (tickerData st0))
                   = last_ticker key (messages seen))
           evs)
    with (seen := [])
         (st := on_connect productIds (getCoinbasePriceData productIds));
    [|split; [reflexivity | intros key _; reflexivity] | exact Hrun].
  intros seen st0 ev st0' _ [Hconn HP] Hstep.
  apply coinbase_step_cases in Hstep.
  rewrite messages_snoc.
  destruct Hstep as [[-> ->] | [(e & -> & ->) | [(e & -> & Herr)
    | (m & -> & Hmsg)]]]; rewrite ?app_nil_r.
  - split; [reflexivity | exact HP].
  - split; [exact Hconn | exact HP].
  - destruct Herr as [[_ ->] | [_ ->]]; split; assumption.
  - destruct Hmsg as [[Hoff _] | [(_ & Hnone & ->) | (_ & d & Hd & ->)]].
    + congruence.
    + split; [exact Hconn|].
      intros key Hkey; rewrite last_ticker_snoc, Hnone; apply HP, Hkey.
    + destruct (store_cases productIds st0 d (shadows m)) as (Htd & Hc & _).
      split; [rewrite Hc; exact Hconn|].
      intros key Hkey; rewrite Htd, last_ticker_snoc, Hd.
      destruct (assign_cases (tickerData st0)
                  (CoinbaseTickerData.product_id d) d (shadows m))
        as [[E ->] | ->].
      * rewrite E.
        assert (string_eqb (js "__proto__") key = false) as ->
          by (apply string_eqb_neq; congruence).
        apply HP, Hkey.
      * rewrite lookup_define, (HP key Hkey); reflexivity.
Qed.

Lemma tickerData_holds_last_ticker_witness :
  exists st,
    coinbase_run coinbaseProducts (getCoinbasePriceData coinbaseProducts)
      [Connect; Message (ticker_frame "BTC-GBP" "1");
       ConnectionError (Failure (js "EPIPE"));
       Message (ticker_frame "BTC-GBP" "2"); Message (Binary [7])]
    = Normal st
    /\ lookup (js "BTC-GBP") (own (tickerData st))
       = Some (CoinbaseTickerData.make (js "BTC-GBP") (js "2"))
    /\ lookup (js "XTZ-GBP") (own (tickerData st)) = None.
Proof.
  destruct (coinbase_run coinbaseProducts
              (getCoinbasePriceData coinbaseProducts)
              [Connect; Message (ticker_frame "BTC-GBP" "1");
               ConnectionError (Failure (js "EPIPE"));
               Message (ticker_frame "BTC-GBP" "2"); Message (Binary [7])])
    as [st|e] eqn:Hrun; [|vm_compute in Hrun; discriminate Hrun].
  exists st; split; [reflexivity|]; split.
  - rewrite (tickerData_holds_last_ticker _ _ _ Hrun) by discriminate.
    vm_compute; reflexivity.
  - rewrite (tickerData_holds_last_ticker _ _ _ Hrun) by discriminate.
    vm_compute; reflexivity.
Defined.

(** With an empty list of product ids the promise is never fulfilled by
    a ticker: the count of keys is compared after a key has been stored,
    when it is at least one.  (Only a ticker for [__proto__], which
    stores no key, meets the count of zero.) *)
Theorem empty_request_never_fulfilled (evs : list ws_event)
  (st : collector) :
  coinbase_run [] (getCoinbasePriceData []) evs = Normal st ->
  (forall m d, In (Message m) evs -> ticker_of m = Some d ->
               CoinbaseTickerData.product_id d <> js "__proto__") ->
  forall quotes, ws_promise st <> Fulfilled quotes.
Proof.
  intros Hrun Hkeys.
  apply (coinbase_run_invariant []
           (fun _ st0 => forall quotes, ws_promise st0 <> Fulfilled quotes)
           evs) with (seen := []) (st := getCoinbasePriceData []);
    [| intros quotes; discriminate | exact Hrun].
  intros seen st0 ev st0' Hin HP Hstep quotes Hq.
  apply coinbase_step_cases in Hstep.
  destruct Hstep as [[-> ->] | [(e & -> & ->) | [(e & -> & Herr)
    | (m & -> & Hmsg)]]]; try exact (HP quotes Hq).
  - destruct Herr as [[_ ->] | [_ ->]]; [exact (HP quotes Hq)|].
    simpl in Hq; apply reject_fulfilled in Hq; exact (HP quotes Hq).
  - destruct Hmsg as [[_ ->] | [(_ & _ & ->) | (_ & d & Hd & ->)]];
      try exact (HP quotes Hq).
    destruct (store_cases [] st0 d (shadows m))
      as (Htd & _ & [(Hlen & _ & _) | (_ & Hp & _)]);
      [|rewrite Hp in Hq; exact (HP quotes Hq)].
    rewrite Htd in Hlen.
    destruct (assign_cases (tickerData st0)
                (CoinbaseTickerData.product_id d) d (shadows m))
      as [[E _] | E].
    + exact (Hkeys m d Hin Hd E).
    + rewrite E in Hlen.
      pose proof (define_length (CoinbaseTickerData.product_id d) d
                    (own (tickerData st0))) as Hpos.
      simpl in Hlen; lia.
Qed.

Lemma empty_request_witness :
  exists st,
    coinbase_run [] (getCoinbasePriceData [])
      [Connect; Message (ticker_frame "BTC-GBP" "1")] = Normal st
    /\ forall quotes, ws_promise st <> Fulfilled quotes.
Proof.
  destruct (coinbase_run [] (getCoinbasePriceData [])
              [Connect; Message (ticker_frame "BTC-GBP" "1")])
    as [st|e] eqn:Hrun; [|vm_compute in Hrun; discriminate Hrun].
  exists st; split; [reflexivity|].
  apply (empty_request_never_fulfilled _ _ Hrun).
  intros m d [H|[H|[]]] Hd; [discriminate H|].
  injection H as <-; vm_compute in Hd; injection Hd as <-.
  discriminate.
Defined.

Lemma nodup_fills (l l' : list jsstring) :
  NoDup l -> incl l l' -> ~ NoDup l' ->
  (List.length l < List.length l')%nat.
Proof.
  intros Hnd Hincl Hdup.
  pose proof (NoDup_incl_length Hnd Hincl) as Hle.
  destruct (Nat.eq_dec (List.length l) (List.length l')) as [Heq|Hne];
    [|lia].
  exfalso; apply Hdup.
  apply (NoDup_incl_NoDup Hnd); [lia | exact Hincl].
Qed.

(** A product id passed twice can never be satisfied: when the list of
    product ids has a repetition and the valid tickers name requested
    products only, the promise is never fulfilled, because the keys of
    [tickerData] are distinct and their count stays below the length of
    the list. *)
Theorem repeated_product_id_never_fulfilled (productIds : list jsstring)
  (evs : list ws_event) (st : collector) :
  ~ NoDup productIds ->
  (forall m d, In (Message m) evs -> ticker_of m = Some d ->
               In (CoinbaseTickerData.product_id d) productIds) ->
  coinbase_run productIds (getCoinbasePriceData productIds) evs = Normal st ->
  forall quotes, ws_promise st <> Fulfilled quotes.
Proof.
  intros Hdup Hreq Hrun.
  enough (H : (forall quotes, ws_promise st <> Fulfilled quotes)
              /\ NoDup (map fst (own (tickerData st)))
              /\ incl (map fst (own (tickerData st))) productIds)
    by exact (proj1 H).
  apply (coinbase_run_invariant productIds
           (fun _ st0 =>
              (forall quotes, ws_promise st0 <> Fulfilled quotes)
              /\ NoDup (map fst (own (tickerData st0)))
              /\ incl (map fst (own (tickerData st0))) productIds)
           evs) with (seen := []) (st := getCoinbasePriceData productIds);
    [| |exact Hrun].
  - intros seen st0 ev st0' Hin (HP & Hnd & Hincl) Hstep.
    apply coinbase_step_cases in Hstep.
    destruct Hstep as [[-> ->] | [(e & -> & ->) | [(e & -> & Herr)
      | (m & -> & Hmsg)]]]; try (split; [exact HP | split; assumption]).
    + destruct Herr as [[_ ->] | [_ ->]];
        [split; [exact HP | split; assumption]|].
      split; [|split; assumption].
      intros quotes Hq; simpl in Hq; apply reject_fulfilled in Hq.
      exact (HP quotes Hq).
    + destruct Hmsg as [[_ ->] | [(_ & _ & ->) | (_ & d & Hd & ->)]];
        try (split; [exact HP | split; assumption]).
      pose proof (Hreq m d Hin Hd) as Hd_in.
      destruct (store_cases productIds st0 d (shadows m))
        as (Htd & _ & Hcases).
      assert (Hkeys :
        NoDup (map fst (own (tickerData
                               (store productIds st0 d (shadows m)))))
        /\ incl (map fst (own (tickerData
                                 (store productIds st0 d (shadows m)))))
                productIds).
      { rewrite Htd.
        destruct (assign_cases (tickerData st0)
                    (CoinbaseTickerData.product_id d) d (shadows m))
          as [[_ ->] | ->]; [split; assumption|].
        split; [apply define_nodup; exact Hnd|].
        rewrite define_keys.
        destruct (lookup _ _); [exact Hincl|].
        apply incl_app; [exact Hincl|].
        intros x [<-|[]]; exact Hd_in. }
      destruct Hkeys as [Hnd' Hincl'].
      split; [|split; assumption].
      intros quotes Hq.
      destruct Hcases as [(Hlen & _ & _) | (_ & Hp & _)];
        [|rewrite Hp in Hq; exact (HP quotes Hq)].
      pose proof (nodup_fills _ _ Hnd' Hincl' Hdup) as Hlt.
      rewrite length_map in Hlt; lia.
  - split; [intros quotes; discriminate|].
    split; [constructor | intros x []].
Qed.

Lemma repeated_product_id_witness :
  exists st,
    coinbase_run [js "A"; js "A"] (getCoinbasePriceData [js "A"; js "A"])
      [Connect; Message (ticker_frame "A" "1");
       Message (ticker_frame "A" "2")] = Normal st
    /\ forall quotes, ws_promise st <> Fulfilled quotes.
Proof.
  destruct (coinbase_run [js "A"; js "A"]
              (getCoinbasePriceData [js "A"; js "A"])
              [Connect; Message (ticker_frame "A" "1");
               Message (ticker_frame "A" "2")])
    as [st|e] eqn:Hrun; [|vm_compute in Hrun; discriminate Hrun].
  exists st; split; [reflexivity|].
  apply (repeated_product_id_never_fulfilled [js "A"; js "A"] _ _)
    with (3 := Hrun).
  - intros Hnd; inversion Hnd as [|? ? Hin _]; apply Hin; left; reflexivity.
  - intros m d [H|[H|[H|[]]]] Hd; [discriminate H | |];
      injection H as <-; vm_compute in Hd; injection Hd as <-;
      left; reflexivity.
Defined.

Lemma sends_snoc (log : list ws_action) (a : ws_action) :
  sends (log ++ [a])
  = sends log ++ match a with WsSend config => [config] | _ => [] end.
Proof.
  unfold sends; rewrite flat_map_app; simpl; rewrite app_nil_r.
  reflexivity.
Qed.

(** One call opens one connection, and all it ever sends is the
    subscription: in every run the log starts with the one
    [client.connect] to the feed, everything after it is either the
    subscription for the ticker channel with the product ids as passed
    or a close, and a subscription is sent once for each ['connect']
    event and at no other time. *)
Theorem only_the_subscription_is_sent (productIds : list jsstring)
  (evs : list ws_event) (st : collector) :
  coinbase_run productIds (getCoinbasePriceData productIds) evs = Normal st ->
  exists rest,
    ws_log st = WsConnect (js "wss://ws-feed.pro.coinbase.com") :: rest
    /\ (forall a, In a rest ->
          a = WsSend (subscribe productIds) \/ a = WsClose)
    /\ sends (ws_log st)
       = repeat (subscribe productIds)
                (List.length (filter is_connect evs)).
Proof.
  intros Hrun.
  apply (coinbase_run_invariant productIds
           (fun seen st0 =>
              exists rest,
                ws_log st0
                = WsConnect (js "wss://ws-feed.pro.coinbase.com") :: rest
                /\ (forall a, In a rest ->
                      a = WsSend (subscribe productIds) \/ a = WsClose)
                /\ sends (ws_log st0)
                   = repeat (subscribe productIds)
                            (List.length (filter is_connect seen)))
           evs) with (seen := []) (st := getCoinbasePriceData productIds);
    [| |exact Hrun].
  - intros seen st0 ev st0' _ (rest & Hlog & Hrest & Hsends) Hstep.
    assert (Hsame : forall ev0, is_connect ev0 = false ->
              sends (ws_log st0)
              = repeat (subscribe productIds)
                       (List.length (filter is_connect (seen ++ [ev0])))).
    { intros ev0 Hev; rewrite filter_app; simpl; rewrite Hev, app_nil_r.
      exact Hsends. }
    assert (Hclose : forall ev0, is_connect ev0 = false ->
              exists rest0,
                ws_log st0 ++ [WsClose]
                = WsConnect (js "wss://ws-feed.pro.coinbase.com") :: rest0
                /\ (forall a, In a rest0 ->
                      a = WsSend (subscribe productIds) \/ a = WsClose)
                /\ sends (ws_log st0 ++ [WsClose])
                   = repeat (subscribe productIds)
                       (List.length (filter is_connect (seen ++ [ev0])))).
    { intros ev0 Hev; exists (rest ++ [WsClose]).
      split; [rewrite Hlog; reflexivity|]; split.
      - intros a Ha; apply in_app_or in Ha.
        destruct Ha as [Ha | [<-|[]]]; [apply Hrest, Ha | right; reflexivity].
      - rewrite sends_snoc, app_nil_r; apply Hsame, Hev. }
    apply coinbase_step_cases in Hstep.
    destruct Hstep as [[-> ->] | [(e & -> & ->) | [(e & -> & Herr)
      | (m & -> & Hmsg)]]].
    + exists (rest ++ [WsSend (subscribe productIds)]).
      simpl; split; [rewrite Hlog; reflexivity|]; split.
      * intros a Ha; apply in_app_or in Ha.
        destruct Ha as [Ha | [<-|[]]]; [apply Hrest, Ha | left; reflexivity].
      * rewrite sends_snoc, Hsends, filter_app, length_app; simpl.
        rewrite repeat_app; reflexivity.
    + exists rest; split; [exact Hlog|]; split; [exact Hrest|].
      apply Hsame; reflexivity.
    + destruct Herr as [[_ ->] | [_ ->]].
      * exists rest; split; [exact Hlog|]; split; [exact Hrest|].
        apply Hsame; reflexivity.
      * apply (Hclose (ConnectionError e)); reflexivity.
    + destruct Hmsg as [[_ ->] | [(_ & _ & ->) | (_ & d & _ & ->)]].
      * exists rest; split; [exact Hlog|]; split; [exact Hrest|].
        apply Hsame; reflexivity.
      * exists rest; split; [exact Hlog|]; split; [exact Hrest|].
        apply Hsame; reflexivity.
      * destruct (store_cases productIds st0 d (shadows m))
          as (_ & _ & [(_ & _ & Hl) | (_ & _ & Hl)]); rewrite Hl.
        -- apply (Hclose (Message m)); reflexivity.
        -- exists rest; split; [exact Hlog|]; split; [exact Hrest|].
           apply Hsame; reflexivity.
  - exists []; simpl; split; [reflexivity|]; split; [intros a []|].
    reflexivity.
Qed.

Lemma only_the_subscription_witness :
  exists st,
    coinbase_run coinbaseProducts (getCoinbasePriceData coinbaseProducts)
      [Connect; Message (ticker_frame "BTC-GBP" "1");
       Message (Utf8 (js "{}"))] = Normal st
    /\ sends (ws_log st) = [subscribe coinbaseProducts].
Proof.
  destruct (coinbase_run coinbaseProducts
              (getCoinbasePriceData coinbaseProducts)
              [Connect; Message (ticker_frame "BTC-GBP" "1");
               Message (Utf8 (js "{}"))])
    as [st|e] eqn:Hrun; [|vm_compute in Hrun; discriminate Hrun].
  exists st; split; [reflexivity|].
  destruct (only_the_subscription_is_sent _ _ _ Hrun) as (rest & _ & _ & Hs).
  exact Hs.
Defined.

(* ================================================================= *)
(** * More about getBinancePriceData *)

(** The promise of [getBinancePriceData] is settled by the ['end']
    listener only: as long as no ['end'] event has come, whatever
    response and data events have, the promise is pending. *)
Theorem pending_until_end (productIds : list (jsstring * jsstring))
  (evs : list http_event) (st : fetcher) :
  forallb (fun ev => negb (is_end ev)) evs = true ->
  binance_run productIds (getBinancePriceData productIds) evs = Normal st ->
  http_promise st = Pending.
Proof.
  intros Hno.
  enough (H : forall st0, http_promise st0 = Pending ->
                binance_run productIds st0 evs = Normal st ->
                http_promise st = Pending)
    by (apply H; reflexivity).
  induction evs as [|ev evs IH]; simpl; intros st0 Hp Hrun.
  - injection Hrun as <-; exact Hp.
  - simpl in Hno; apply andb_true_iff in Hno; destruct Hno as [Hev Hno].
    destruct ev as [| chunk | | e]; simpl in Hrun; try discriminate.
    + eapply IH; [exact Hno | | exact Hrun]; exact Hp.
    + destruct (body st0); (eapply IH; [exact Hno | | exact Hrun]; exact Hp).
Qed.

Lemma pending_until_end_witness :
  exists st,
    binance_run binanceProducts (getBinancePriceData binanceProducts)
      [Response; Data (js "[]")] = Normal st
    /\ http_promise st = Pending.
Proof.
  destruct (binance_run binanceProducts (getBinancePriceData binanceProducts)
              [Response; Data (js "[]")]) as [st|e] eqn:Hrun;
    [|vm_compute in Hrun; discriminate Hrun].
  exists st; split; [reflexivity|].
  exact (pending_until_end binanceProducts [Response; Data (js "[]")] st
           eq_refl Hrun).
Defined.

(** The answer depends on the chunks only through the text they add up
    to in [body]: two sequences of ['data'] events whose chunks, as
    [body += chunk] appends them, concatenate to the same text leave the
    call in the same state. *)
Theorem body_is_the_concatenation (productIds : list (jsstring * jsstring))
  (chunks chunks' : list jsstring) :
  concat chunks = concat chunks' ->
  binance_run productIds (getBinancePriceData productIds)
    (Response :: map Data chunks ++ [End])
  = binance_run productIds (getBinancePriceData productIds)
      (Response :: map Data chunks' ++ [End]).
Proof.
  intros Heq; rewrite !binance_run_response, Heq; reflexivity.
Qed.

Lemma body_is_the_concatenation_witness :
  binance_run binanceProducts (getBinancePriceData binanceProducts)
    (Response
     :: map Data [text "[{'symbol':'ADABTC',"; text "'price':'1.23'}]"]
     ++ [End])
  = binance_run binanceProducts (getBinancePriceData binanceProducts)
      (Response
       :: map Data [text "[{'symb"; text "ol':'ADABTC','price':'1.2";
                    text "3'}]"]
       ++ [End]).
Proof.
  apply body_is_the_concatenation; vm_compute; reflexivity.
Defined.

(* ================================================================= *)
(** * More about printExchangeRates *)

Lemma sorted_app {A : Type} (R : A -> A -> Prop) (l1 l2 : list A) :
  Sorted R l1 -> Sorted R l2 ->
  (forall x y, In x l1 -> In y l2 -> R x y) ->
  Sorted R (l1 ++ l2).
Proof.
  induction l1 as [|x l1 IH]; intros H1 H2 Hcross; [exact H2|].
  inversion H1 as [|? ? Hs Hhd]; subst; simpl.
  constructor.
  - apply IH; [exact Hs | exact H2|].
    intros a b Ha Hb; apply Hcross; [right; exact Ha | exact Hb].
  - destruct l1 as [|z l1]; simpl.
    + destruct l2 as [|y l2]; constructor.
      apply Hcross; left; reflexivity.
    + constructor; inversion Hhd; assumption.
Qed.

(** In the output every Binance row comes before every Coinbase row:
    sorting all the lines together gives the sorted Binance lines
    followed by the sorted Coinbase lines, whatever the symbols and
    prices are. *)
Theorem binance_rows_before_coinbase_rows
  (coinbaseResults : list CoinbaseTickerData.t)
  (binanceResults : list BinanceTickerData.t) :
  lines coinbaseResults binanceResults
  = Array_sort (map binance_line binanceResults)
    ++ Array_sort (map coinbase_line coinbaseResults).
Proof.
  apply (sorted_perm_unique string_leb string_leb_trans string_leb_antisym).
  - apply sort_sorted, string_leb_total.
  - apply sorted_app; try (apply sort_sorted, string_leb_total).
    intros x y Hx Hy.
    apply (Permutation_in _ (sort_perm string_leb _)) in Hx.
    apply (Permutation_in _ (sort_perm string_leb _)) in Hy.
    apply in_map_iff in Hx; destruct Hx as (qb & <- & _).
    apply in_map_iff in Hy; destruct Hy as (qc & <- & _).
    reflexivity.
  - unfold lines, Array_sort; rewrite !sort_perm; reflexivity.
Qed.

Lemma string_ltb_app (p a b : jsstring) :
  string_ltb (p ++ a) (p ++ b) = string_ltb a b.
Proof.
  induction p as [|x p IH]; simpl; [reflexivity|].
  rewrite N.ltb_irrefl; exact IH.
Qed.

Lemma string_ltb_before_comma (s1 s2 t1 t2 : jsstring) :
  (forall c, In c s2 -> 44 < c) ->
  string_ltb s1 s2 = true ->
  string_ltb (s1 ++ 44 :: t1) (s2 ++ 44 :: t2) = true.
Proof.
  revert s2; induction s1 as [|x s1 IH]; intros [|y s2] Habove;
    simpl; try discriminate.
  - intros _.
    assert (H : 44 < y) by (apply Habove; left; reflexivity).
    apply N.ltb_lt in H; rewrite H; reflexivity.
  - destruct (x <? y); [reflexivity|].
    destruct (y <? x); [discriminate|].
    apply IH; intros c Hc; apply Habove; right; exact Hc.
Qed.

(** Within an exchange the rows follow the market names: when the
    larger of two market names has no code unit up to the comma (letters,
    digits and the hyphen are all above it), the line of the smaller
    name is the smaller line, whatever the two prices are. *)
Theorem lines_follow_market_names (name1 price1 name2 price2 : jsstring) :
  (forall c, In c name2 -> 44 < c) ->
  string_ltb name1 name2 = true ->
  string_ltb (binance_line (BinanceTickerData.make name1 price1))
             (binance_line (BinanceTickerData.make name2 price2)) = true
  /\ string_ltb (coinbase_line (CoinbaseTickerData.make name1 price1))
                (coinbase_line (CoinbaseTickerData.make name2 price2))
     = true.
Proof.
  intros Habove Hlt.
  unfold binance_line, coinbase_line; simpl BinanceTickerData.symbol;
    simpl BinanceTickerData.price; simpl CoinbaseTickerData.product_id;
    simpl CoinbaseTickerData.price.
  rewrite !string_ltb_app.
  change (js ",") with [44].
  split; apply string_ltb_before_comma; assumption.
Qed.

Lemma lines_follow_market_names_witness :
  string_ltb
    (binance_line (BinanceTickerData.make (js "ADA-BTC") (js "9.5")))
    (binance_line (BinanceTickerData.make (js "ADA-BTC2") (js "1.5")))
  = true.
Proof.
  refine (proj1 (lines_follow_market_names (js "ADA-BTC") (js "9.5")
                   (js "ADA-BTC2") (js "1.5") _ eq_refl)).
  intros c Hc; simpl in Hc.
  repeat (destruct Hc as [<-|Hc]; [reflexivity|]); destruct Hc.
Defined.

(** A name with a code unit below the comma breaks that order: ['A!']
    is the larger name and gives the smaller line. *)
Example market_name_below_comma :
  string_ltb (js "A") (js "A!") = true
  /\ string_ltb (binance_line (BinanceTickerData.make (js "A!") (js "1")))
                (binance_line (BinanceTickerData.make (js "A") (js "1")))
     = true.
Proof. split; reflexivity. Qed.

Lemma settle_keeps_sources (p : process) :
  coinbase (settle p) = coinbase p
  /\ binance (settle p) = binance p
  /\ uncaught (settle p) = uncaught p.
Proof.
  unfold settle.
  destruct (aggregate p); auto.
  destruct (Promise_all _ _) as [|[c b]|e]; auto.
Qed.

Lemma run_after_uncaught (evs : list event) (p : process) (e : error) :
  uncaught p = Some e -> run p evs = p.
Proof.
  intros Hp; induction evs as [|ev evs IH]; [reflexivity|].
  unfold run; simpl; unfold step at 2; rewrite Hp; exact IH.
Qed.

(** The two sources do not touch each other's state: a run of the
    program ends without an uncaught exception exactly when each source,
    run alone on its own events in their order, does, and then each
    closure is in the state that the run of its source alone gives. *)
Theorem sources_run_apart (evs : list event) :
  uncaught (run printExchangeRates evs) = None <->
  coinbase_run coinbaseProducts (getCoinbasePriceData coinbaseProducts)
    (ws_events evs) = Normal (coinbase (run printExchangeRates evs))
  /\ binance_run binanceProducts (getBinancePriceData binanceProducts)
       (http_events evs) = Normal (binance (run printExchangeRates evs)).
Proof.
  enough (H : forall p, uncaught p = None ->
            (uncaught (run p evs) = None <->
             coinbase_run coinbaseProducts (coinbase p) (ws_events evs)
             = Normal (coinbase (run p evs))
             /\ binance_run binanceProducts (binance p) (http_events evs)
                = Normal (binance (run p evs))))
    by (apply (H printExchangeRates); reflexivity).
  induction evs as [|ev evs IH]; intros p Hp.
  - simpl; split; [auto | intros _; exact Hp].
  - change (run p (ev :: evs)) with (run (step p ev) evs).
    unfold step; rewrite Hp.
    destruct ev as [e | e]; simpl ws_events; simpl http_events;
      cbn [coinbase_run binance_run].
    + destruct (coinbase_step coinbaseProducts (coinbase p) e) as [c|err].
      * pose proof (settle_keeps_sources
                      (Process c (binance p) (aggregate p) (stdout p)
                               (console_error p) None)) as (Hc & Hb & Hu).
        rewrite (IH _ Hu), Hc, Hb; reflexivity.
      * rewrite (run_after_uncaught evs
                   (Process (coinbase p) (binance p) (aggregate p)
                            (stdout p) (console_error p) (Some err))
                   err eq_refl); simpl.
        split; [discriminate | intros [H _]; discriminate H].
    + destruct (binance_step binanceProducts (binance p) e) as [b|err].
      * pose proof (settle_keeps_sources
                      (Process (coinbase p) b (aggregate p) (stdout p)
                               (console_error p) None)) as (Hc & Hb & Hu).
        rewrite (IH _ Hu), Hc, Hb; reflexivity.
      * rewrite (run_after_uncaught evs
                   (Process (coinbase p) (binance p) (aggregate p)
                            (stdout p) (console_error p) (Some err))
                   err eq_refl); simpl.
        split; [discriminate | intros [_ H]; discriminate H].
Qed.

(** On success the output does not depend on how the events of the two
    sources were interleaved: two runs that deliver the same websocket
    events and the same https events in the same order per source, the
    first ending with the output written, both end with the same
    output. *)
Theorem output_independent_of_interleaving (evs evs' : list event) :
  ws_events evs = ws_events evs' ->
  http_events evs = http_events evs' ->
  uncaught (run printExchangeRates evs) = None ->
  aggregate (run printExchangeRates evs) = Fulfilled tt ->
  uncaught (run printExchangeRates evs') = None
  /\ aggregate (run printExchangeRates evs') = Fulfilled tt
  /\ stdout (run printExchangeRates evs')
     = stdout (run printExchangeRates evs).
Proof.
  intros Hws Hhttp Hun Hagg.
  pose proof (proj1 (sources_run_apart evs) Hun) as [Hc Hb].
  assert (Hun' : uncaught (run printExchangeRates evs') = None).
  { destruct (uncaught (run printExchangeRates evs')) as [err|] eqn:E;
      [|reflexivity].
    exfalso.
    assert (Hstuck : forall p, uncaught p = None ->
              uncaught (run p evs') <> None ->
              (forall c, coinbase_run coinbaseProducts (coinbase p)
                           (ws_events evs') <> Normal c)
              \/ (forall b, binance_run binanceProducts (binance p)
                              (http_events evs') <> Normal b)).
    { clear; induction evs' as [|ev evs' IH]; intros p Hp Hbad;
        [simpl in Hbad; congruence|].
      change (run p (ev :: evs')) with (run (step p ev) evs') in Hbad.
      unfold step in Hbad; rewrite Hp in Hbad.
      destruct ev as [e | e]; simpl ws_events; simpl http_events;
        cbn [coinbase_run binance_run].
      - destruct (coinbase_step coinbaseProducts (coinbase p) e)
          as [c|err]; [|left; intros c0; discriminate].
        pose proof (settle_keeps_sources
                      (Process c (binance p) (aggregate p) (stdout p)
                               (console_error p) None)) as (Hc & Hb & Hu).
        destruct (IH _ Hu Hbad) as [H|H]; [left | right];
          rewrite ?Hc, ?Hb in H; exact H.
      - destruct (binance_step binanceProducts (binance p) e)
          as [b|err]; [|right; intros b0; discriminate].
        pose proof (settle_keeps_sources
                      (Process (coinbase p) b (aggregate p) (stdout p)
                               (console_error p) None)) as (Hc & Hb & Hu).
        destruct (IH _ Hu Hbad) as [H|H]; [left | right];
          rewrite ?Hc, ?Hb in H; exact H. }
    destruct (Hstuck printExchangeRates eq_refl) as [H|H].
    - rewrite E; discriminate.
    - rewrite <- Hws in H; exact (H _ Hc).
    - rewrite <- Hhttp in H; exact (H _ Hb). }
  split; [exact Hun'|].
  pose proof (proj1 (sources_run_apart evs') Hun') as [Hc' Hb'].
  rewrite <- Hws, Hc in Hc'; injection Hc' as Hc'.
  rewrite <- Hhttp, Hb in Hb'; injection Hb' as Hb'.
  pose proof (printExchangeRates_consistent evs) as Hcons.
  pose proof (printExchangeRates_consistent evs') as Hcons'.
  unfold consistent in Hcons, Hcons'.
  rewrite Hagg in Hcons.
  destruct Hcons as (c & b & Hpc & Hpb & Hout & _).
  rewrite <- Hc', <- Hb' in Hcons'.
  destruct (aggregate (run printExchangeRates evs')) as [|[]|e].
  - destruct Hcons' as (_ & _ & Hall).
    rewrite Hpc, Hpb in Hall; discriminate Hall.
  - destruct Hcons' as (c' & b' & Hpc' & Hpb' & Hout' & _).
    split; [reflexivity|].
    rewrite Hout, Hout'; congruence.
  - destruct Hcons' as (_ & _ & [H|H]); congruence.
Qed.

Lemma output_independent_of_interleaving_witness :
  stdout (run printExchangeRates
            [Http Response; Http (Data (js "[]")); Http End; Ws Connect;
             Ws (Message (ticker_frame "BTC-GBP" "1"));
             Ws (Message (ticker_frame "XTZ-GBP" "2"));
             Ws (Message (ticker_frame "LINK-GBP" "3"))])
  = stdout (run printExchangeRates
              [Ws Connect; Http Response;
               Ws (Message (ticker_frame "BTC-GBP" "1"));
               Http (Data (js "[]"));
               Ws (Message (ticker_frame "XTZ-GBP" "2")); Http End;
               Ws (Message (ticker_frame "LINK-GBP" "3"))]).
Proof.
  refine (proj2 (proj2 (output_independent_of_interleaving
    [Ws Connect; Http Response;
     Ws (Message (ticker_frame "BTC-GBP" "1"));
     Http (Data (js "[]"));
     Ws (Message (ticker_frame "XTZ-GBP" "2")); Http End;
     Ws (Message (ticker_frame "LINK-GBP" "3"))]
    [Http Response; Http (Data (js "[]")); Http End; Ws Connect;
     Ws (Message (ticker_frame "BTC-GBP" "1"));
     Ws (Message (ticker_frame "XTZ-GBP" "2"));
     Ws (Message (ticker_frame "LINK-GBP" "3"))]
    eq_refl eq_refl _ _))); vm_compute; reflexivity.
Defined.

Lemma step_after_settled (p : process) (ev : event) :
  aggregate p <> Pending ->
  aggregate (step p ev) = aggregate p
  /\ stdout (step p ev) = stdout p
  /\ console_error (step p ev) = console_error p.
Proof.
  intros Hset.
  assert (Hsettle : forall p0, aggregate p0 = aggregate p -> settle p0 = p0).
  { intros p0 H0; unfold settle; rewrite H0.
    destruct (aggregate p); [congruence | reflexivity..]. }
  unfold step.
  destruct (uncaught p); [auto|].
  destruct ev as [e | e].
  - destruct (coinbase_step coinbaseProducts (coinbase p) e);
      [rewrite Hsettle by reflexivity|]; auto.
  - destruct (binance_step binanceProducts (binance p) e);
      [rewrite Hsettle by reflexivity|]; auto.
Qed.

(** Once the promise of [printExchangeRates()] has settled, no later
    event writes or logs anything: the output is written at most once,
    in one piece, and an error is logged at most once. *)
Theorem nothing_written_after_settling (evs later : list event) :
  aggregate (run printExchangeRates evs) <> Pending ->
  aggregate (run printExchangeRates (evs ++ later))
  = aggregate (run printExchangeRates evs)
  /\ stdout (run printExchangeRates (evs ++ later))
     = stdout (run printExchangeRates evs)
  /\ console_error (run printExchangeRates (evs ++ later))
     = console_error (run printExchangeRates evs).
Proof.
  unfold run at 2 4 6; rewrite fold_left_app.
  fold (run printExchangeRates evs).
  generalize (run printExchangeRates evs) as p.
  induction later as [|ev later IH]; intros p Hset; [simpl; auto|].
  simpl.
  destruct (step_after_settled p ev Hset) as (Ha & Ho & He).
  destruct (IH (step p ev)) as (Ha' & Ho' & He'); [congruence|].
  rewrite Ha', Ho', He'; auto.
Qed.

Lemma nothing_written_after_settling_witness :
  stdout (run printExchangeRates
            ([Http Response; Http (Data (js "{}")); Http End]
             ++ [Ws Connect; Ws (Message (ticker_frame "BTC-GBP" "1"));
                 Ws (Message (ticker_frame "XTZ-GBP" "2"));
                 Ws (Message (ticker_frame "LINK-GBP" "3"))]))
  = [].
Proof.
  destruct (nothing_written_after_settling
              [Http Response; Http (Data (js "{}")); Http End]
              [Ws Connect; Ws (Message (ticker_frame "BTC-GBP" "1"));
               Ws (Message (ticker_frame "XTZ-GBP" "2"));
               Ws (Message (ticker_frame "LINK-GBP" "3"))])
    as (_ & Hout & _); [vm_compute; discriminate|].
  rewrite Hout; vm_compute; reflexivity.
Defined.

(** The key [__proto__] is stored after all once the prototype owns a
    property of that name: the first frame, a ticker for [__proto__]
    that carries a field [__proto__] of its own, becomes the prototype;
    the second is then stored under the key, which completes the count,
    and the promise is fulfilled with it and the connection closed. *)
Example proto_key_stored_when_shadowed :
  exists st,
    coinbase_run [js "__proto__"] (getCoinbasePriceData [js "__proto__"])
      [Connect;
       Message
         (Utf8 (text "{'type':'ticker','product_id':'__proto__',"
                ++ text "'price':'1','__proto__':{}}"));
       Message (ticker_frame "__proto__" "2")] = Normal st
    /\ ws_promise st
       = Fulfilled [CoinbaseTickerData.make (js "__proto__") (js "2")]
    /\ map fst (own (tickerData st)) = [js "__proto__"]
    /\ In WsClose (ws_log st).
Proof.
  eexists; split; [vm_compute; reflexivity|].
  split; [reflexivity|]; split; [reflexivity|].
  simpl; auto.
Qed.
